(** * Car-price prediction service ([app.py]): model and verified properties

    The program is one Flask module.  At import it unpickles a regression
    model into the global [model]; the view [predict_placement] reads six
    form fields, converts each with the builtin [float], hands the six
    values as a 1x6 array to [model.predict] and answers [str(result[0])].

    The embedding follows the module statement by statement.  What the
    module takes from its libraries is modelled next to it:
    - [float(str)] (CPython [PyFloat_FromString]) as [float_of_string];
    - [str] of a NumPy [float64] as [str_float64];
    - the werkzeug form ([MultiDict]) as an association list;
    - the unpickled artifact as a value of type [predictor]. *)

From Stdlib Require Import ZArith List String Ascii Bool Lia.
From Stdlib Require Import Floats.SpecFloat Numbers.DecimalPos.
From Stdlib Require Import Sorting.Permutation.
Import ListNotations.

Open Scope Z_scope.

(** ** Binary64 values *)

(** A Python [float] and a NumPy [float64] are IEEE-754 binary64 numbers:
    precision 53, infinities at exponent 1024. *)
Definition float64 := spec_float.

Definition prec : Z := 53.
Definition emax : Z := 1024.

Definition float64_eqb (x y : float64) : bool :=
  match x, y with
  | S754_zero a, S754_zero b => Bool.eqb a b
  | S754_infinity a, S754_infinity b => Bool.eqb a b
  | S754_nan, S754_nan => true
  | S754_finite a m e, S754_finite b n f =>
      Bool.eqb a b && Pos.eqb m n && Z.eqb e f
  | _, _ => false
  end.

(** The double nearest to the integer [z] (ties to even). *)
Definition float_of_Z (z : Z) : float64 := binary_normalize prec emax z 0 false.

(** [M / D] rounded to the nearest double, ties to even.  The quotient is
    taken with enough extra bits for the rounding position to lie inside
    it; the remainder gives the location of the exact value between two
    consecutive quotients. *)
Definition round_ratio (s : bool) (M D : Z) : float64 :=
  let k := prec + Zdigits2 D in
  let n := M * 2 ^ k in
  let q := n / D in
  let r := n mod D in
  let loc := if r =? 0 then loc_Exact else loc_Inexact (2 * r ?= D) in
  binary_round_aux prec emax s q (- k) loc.

(** The double nearest to [(-1)^s * M * 10^E], as [strtod] returns it:
    overflow gives an infinity, underflow a subnormal or a zero. *)
Definition decimal_to_double (s : bool) (M E : Z) : float64 :=
  match M with
  | Zpos m =>
      if 0 <=? E then binary_round prec emax s (Z.to_pos (M * 10 ^ E)) 0
      else round_ratio s M (10 ^ (- E))
  | _ => S754_zero s
  end.

(** ** [float(str)] *)

Module PyFloat.

Definition code (c : ascii) : N := N_of_ascii c.

Definition is_digit (c : ascii) : bool :=
  (48 <=? code c)%N && (code c <=? 57)%N.

Definition digit_value (c : ascii) : Z := Z.of_N (code c) - 48.

(** [Py_ISSPACE]: space, TAB, LF, VT, FF, CR. *)
Definition Py_ISSPACE (c : ascii) : bool :=
  ((9 <=? code c)%N && (code c <=? 13)%N) || (code c =? 32)%N.

(** [Py_UNICODE_ISSPACE] on the code points above 127 that a Rocq
    character can hold: NEL (U+0085) and NBSP (U+00A0). *)
Definition unicode_isspace_high (c : ascii) : bool :=
  (code c =? 133)%N || (code c =? 160)%N.

Definition Py_TOLOWER (c : ascii) : ascii :=
  if (65 <=? code c)%N && (code c <=? 90)%N
  then ascii_of_N (code c + 32) else c.

(** [_PyUnicode_TransformDecimalAndSpaceToASCII] on code points below
    256: ASCII is kept, a high space becomes a blank, and any other high
    character (none of them is a decimal digit) ends the text with ['?']. *)
Fixpoint transform (s : list ascii) : list ascii :=
  match s with
  | [] => []
  | c :: s' =>
      if (code c <=? 127)%N then c :: transform s'
      else if unicode_isspace_high c then " "%char :: transform s'
      else ["?"%char]
  end.

Fixpoint lstrip (s : list ascii) : list ascii :=
  match s with
  | c :: s' => if Py_ISSPACE c then lstrip s' else s
  | [] => []
  end.

Fixpoint rstrip (s : list ascii) : list ascii :=
  match s with
  | [] => []
  | c :: s' =>
      match rstrip s' with
      | [] => if Py_ISSPACE c then [] else [c]
      | r => c :: r
      end
  end.

(** [_Py_string_to_number_with_underscores]: an underscore is dropped when
    it stands between two digits and is an error anywhere else.  [prev] is
    the character before [s]. *)
Fixpoint drop_underscores (prev : ascii) (s : list ascii)
  : option (list ascii) :=
  match s with
  | [] => if Ascii.eqb prev "_" then None else Some []
  | c :: s' =>
      if Ascii.eqb c "_" then
        if is_digit prev then drop_underscores c s' else None
      else if Ascii.eqb prev "_" && negb (is_digit c) then None
      else option_map (cons c) (drop_underscores c s')
  end.

(** The longest prefix of digits, and what follows it. *)
Fixpoint span_digits (s : list ascii) : list ascii * list ascii :=
  match s with
  | c :: s' =>
      if is_digit c
      then let (d, r) := span_digits s' in (c :: d, r)
      else ([], s)
  | [] => ([], [])
  end.

Definition digits_value (ds : list ascii) : Z :=
  fold_left (fun acc c => 10 * acc + digit_value c) ds 0.

Definition read_sign (s : list ascii) : bool * list ascii :=
  match s with
  | "-"%char :: r => (true, r)
  | "+"%char :: r => (false, r)
  | _ => (false, s)
  end.

(** The exponent part after the digits.  The part is taken only when it
    has a digit; otherwise the literal ends before the [e]. *)
Definition read_exponent (s : list ascii) : Z * list ascii :=
  match s with
  | c :: r =>
      if Ascii.eqb c "e" || Ascii.eqb c "E" then
        let (neg, r1) := read_sign r in
        let (ds, r2) := span_digits r1 in
        match ds with
        | [] => (0, s)
        | _ => ((if neg then - digits_value ds else digits_value ds), r2)
        end
      else (0, s)
  | [] => (0, s)
  end.

(** [_Py_dg_strtod]: sign, digits with an optional point, optional
    exponent.  The result is the value of the longest literal at the start
    of [s] and the rest of [s]; [None] when there is no digit.  (The C
    function also gives up on literals of more than 10^9 digits, which no
    request can carry.) *)
Definition dg_strtod (s : list ascii) : option (float64 * list ascii) :=
  let (neg, s1) := read_sign s in
  let (ip, s2) := span_digits s1 in
  let '(fp, s3) :=
    match s2 with
    | "."%char :: r => span_digits r
    | _ => ([], s2)
    end in
  match ip ++ fp with
  | [] => None
  | ds =>
      let (e, s4) := read_exponent s3 in
      Some (decimal_to_double neg (digits_value ds)
              (e - Z.of_nat (List.length fp)), s4)
  end.

(** [case_insensitive_match]: [t] (lower case) starts [s]; the rest of [s]. *)
Fixpoint match_ci (s t : list ascii) : option (list ascii) :=
  match t with
  | [] => Some s
  | x :: t' =>
      match s with
      | c :: s' => if Ascii.eqb (Py_TOLOWER c) x then match_ci s' t' else None
      | [] => None
      end
  end.

(** [_Py_parse_inf_or_nan]. *)
Definition parse_inf_or_nan (s : list ascii) : option (float64 * list ascii) :=
  let (neg, s1) := read_sign s in
  match match_ci s1 (list_ascii_of_string "inf") with
  | Some r =>
      match match_ci r (list_ascii_of_string "inity") with
      | Some r' => Some (S754_infinity neg, r')
      | None => Some (S754_infinity neg, r)
      end
  | None =>
      match match_ci s1 (list_ascii_of_string "nan") with
      | Some r => Some (S754_nan, r)
      | None => None
      end
  end.

(** [_PyOS_ascii_strtod]: a decimal literal, else an infinity or a NaN. *)
Definition ascii_strtod (s : list ascii) : option (float64 * list ascii) :=
  match dg_strtod s with
  | Some r => Some r
  | None => parse_inf_or_nan s
  end.

(** [float_from_string_inner]: the literal must be the whole text. *)
Definition from_string_inner (s : list ascii) : option float64 :=
  match ascii_strtod s with
  | Some (x, []) => Some x
  | _ => None
  end.

(** [PyFloat_FromString] on a [str]: [None] stands for [ValueError]. *)
Definition float_of_chars (s : list ascii) : option float64 :=
  match lstrip (transform s) with
  | [] => None
  | s1 =>
      match drop_underscores zero (rstrip s1) with
      | Some s2 => from_string_inner s2
      | None => None
      end
  end.

End PyFloat.

Definition float_of_string (s : string) : option float64 :=
  PyFloat.float_of_chars (list_ascii_of_string s).

(** ** [str] of a NumPy [float64]

    NumPy prints a [float64] scalar as Python prints a [float]: the
    shortest decimal that reads back as the same double, and among those
    the one nearest to it; positional between 1e-4 and 1e16, with an
    exponent of at least two digits outside. *)

Module NpFloat.

Import PyFloat.

Fixpoint chars_of_uint (u : Decimal.uint) : list ascii :=
  match u with
  | Decimal.Nil => []
  | Decimal.D0 v => "0"%char :: chars_of_uint v
  | Decimal.D1 v => "1"%char :: chars_of_uint v
  | Decimal.D2 v => "2"%char :: chars_of_uint v
  | Decimal.D3 v => "3"%char :: chars_of_uint v
  | Decimal.D4 v => "4"%char :: chars_of_uint v
  | Decimal.D5 v => "5"%char :: chars_of_uint v
  | Decimal.D6 v => "6"%char :: chars_of_uint v
  | Decimal.D7 v => "7"%char :: chars_of_uint v
  | Decimal.D8 v => "8"%char :: chars_of_uint v
  | Decimal.D9 v => "9"%char :: chars_of_uint v
  end.

Definition chars_of_pos (p : positive) : list ascii :=
  chars_of_uint (Pos.to_uint p).

(** One more in the last place, on digits written least significant
    first. *)
Fixpoint incr_rev (ds : list ascii) : list ascii :=
  match ds with
  | [] => ["1"%char]
  | c :: r =>
      if Ascii.eqb c "9" then "0"%char :: incr_rev r
      else ascii_of_N (code c + 1) :: r
  end.

Definition incr (ds : list ascii) : list ascii := rev (incr_rev (rev ds)).

Fixpoint drop_zeros (ds : list ascii) : list ascii :=
  match ds with
  | c :: r => if Ascii.eqb c "0" then drop_zeros r else ds
  | [] => []
  end.

(** Trailing zeros removed, the first digit kept. *)
Definition trim (ds : list ascii) : list ascii :=
  match ds with
  | d :: r => d :: rev (drop_zeros (rev r))
  | [] => []
  end.

(** A decimal: the digits [ds] read as [0.ds * 10^decpt]. *)
Definition reads_as (neg : bool) (x : float64) (c : list ascii * Z) : bool :=
  float64_eqb
    (decimal_to_double neg (digits_value (fst c))
       (snd c - Z.of_nat (List.length (fst c))))
    x.

Section Shortest.

Variable neg : bool.
Variable x : float64.
(** The exact decimal expansion of [|x|]: [0.D * 10^decpt]. *)
Variable D : list ascii.
Variable decpt : Z.

(** The two decimals of [n] digits around [x]. *)
Definition below (n : nat) : list ascii * Z := (firstn n D, decpt).

Definition above (n : nat) : list ascii * Z :=
  let up := incr (firstn n D) in
  (up, decpt + Z.of_nat (List.length up) - Z.of_nat (List.length (firstn n D))).

(** Whether [x] is nearer to [above n] than to [below n]; a tie goes to
    the even digit. *)
Definition nearer_above (n : nat) : bool :=
  let rest := skipn n D in
  match 2 * digits_value rest ?= 10 ^ Z.of_nat (List.length rest) with
  | Lt => false
  | Gt => true
  | Eq => Z.odd (digits_value (firstn n D))
  end.

Definition nearest (n : nat) : list ascii * Z :=
  if nearer_above n then above n else below n.

(** The decimal of [n] digits that reads back as [x], if there is one. *)
Definition candidate (n : nat) : option (list ascii * Z) :=
  let lo := reads_as neg x (below n) in
  let hi := reads_as neg x (above n) in
  if lo && hi then Some (nearest n)
  else if lo then Some (below n)
  else if hi then Some (above n)
  else None.

(** The first [n], from [n] on, with a candidate; 17 digits always
    identify a double, so the search stops there. *)
Fixpoint search (fuel n : nat) : list ascii * Z :=
  match fuel with
  | O => nearest n
  | S f =>
      match candidate n with
      | Some c => c
      | None => search f (S n)
      end
  end.

End Shortest.

(** The shortest digits of the finite double [m * 2^e] and the position
    of their decimal point. *)
Definition shortest_digits (neg : bool) (m : positive) (e : Z)
  : list ascii * Z :=
  let N := if 0 <=? e then Zpos m * 2 ^ e else Zpos m * 5 ^ (- e) in
  let k := if 0 <=? e then 0 else - e in
  let D := chars_of_pos (Z.to_pos N) in
  let decpt := Z.of_nat (List.length D) - k in
  let (ds, p) := search neg (S754_finite neg m e) D decpt 16 1 in
  (trim ds, p).

Definition zeros (n : Z) : list ascii := repeat "0"%char (Z.to_nat n).

(** The exponent with its sign and at least two digits. *)
Definition exponent_chars (e : Z) : list ascii :=
  let ds := match Z.abs e with
            | Zpos p => chars_of_pos p
            | _ => ["0"%char]
            end in
  (if e <? 0 then "-"%char else "+"%char)
    :: match ds with
       | [d] => ["0"%char; d]
       | _ => ds
       end.

Definition format_digits (ds : list ascii) (decpt : Z) : list ascii :=
  if (decpt <=? -4) || (16 <? decpt) then
    match ds with
    | [] => []
    | [d] => d :: "e"%char :: exponent_chars (decpt - 1)
    | d :: r => d :: "."%char :: r ++ "e"%char :: exponent_chars (decpt - 1)
    end
  else if decpt <=? 0 then
    "0"%char :: "."%char :: zeros (- decpt) ++ ds
  else if decpt <? Z.of_nat (List.length ds) then
    firstn (Z.to_nat decpt) ds ++ "."%char :: skipn (Z.to_nat decpt) ds
  else
    ds ++ zeros (decpt - Z.of_nat (List.length ds)) ++ [ "."%char; "0"%char ].

Definition sign_chars (neg : bool) : list ascii :=
  if neg then ["-"%char] else [].

Definition str_chars (x : float64) : list ascii :=
  match x with
  | S754_nan => list_ascii_of_string "nan"
  | S754_infinity s => sign_chars s ++ list_ascii_of_string "inf"
  | S754_zero s => sign_chars s ++ list_ascii_of_string "0.0"
  | S754_finite s m e =>
      match binary_round prec emax s m e with
      | S754_finite _ m' e' =>
          let (ds, p) := shortest_digits s m' e' in
          sign_chars s ++ format_digits ds p
      | S754_zero _ => sign_chars s ++ list_ascii_of_string "0.0"
      | S754_infinity _ => sign_chars s ++ list_ascii_of_string "inf"
      | S754_nan => list_ascii_of_string "nan"
      end
  end.

End NpFloat.

Definition str_float64 (x : float64) : string :=
  string_of_list_ascii (NpFloat.str_chars x).

Open Scope string_scope.
Open Scope list_scope.

(** ** Exceptions, arrays and the predictor *)

Inductive exn :=
| TypeError      (* [float(None)] *)
| ValueError     (* [float] of a text that is no number; a bad [reshape] *)
| IndexError     (* [result[0]] on an empty array *)
| NameError      (* a global read before its assignment *)
| TemplateNotFound
| OtherError (name : string).   (* whatever the artifact raises *)

Inductive result (A : Type) :=
| Ok (a : A)
| Raise (e : exn).
Arguments Ok {A} a.
Arguments Raise {A} e.

(** NumPy arrays of [float64], of one and of two dimensions. *)
Definition ndarray1 := list float64.
Definition ndarray2 := list (list float64).

Definition np_array (l : list float64) : ndarray1 := l.

Fixpoint rows_of (rows cols : nat) (a : ndarray1) : ndarray2 :=
  match rows with
  | O => []
  | S r => firstn cols a :: rows_of r cols (skipn cols a)
  end.

(** [a.reshape(rows, cols)]: the sizes must agree. *)
Definition reshape (a : ndarray1) (rows cols : nat) : result ndarray2 :=
  if Nat.eqb (List.length a) (rows * cols)
  then Ok (rows_of rows cols a) else Raise ValueError.

(** Modelled from the spec: the object unpickled from [model_1.pkl],
    which is not part of the repository, seen through its one operation
    (4.2, "predict(vector of fixed dimension 6) -> scalar"): a batch of
    feature rows in, and out a one-dimensional array of [float64] with the
    prediction of each row, or an exception.  It keeps no state of its
    own.  An artifact whose [predict] answers anything else (an array of
    two dimensions, another element type) is outside this model. *)
Definition predictor := ndarray2 -> result ndarray1.

(** ** The process *)

(** What [print] wrote: the label and the value printed. *)
Inductive line :=
| InputData (v : list float64)
| Prediction (r : ndarray1).

Record process := {
  model : option predictor;            (* the global [model], line 6 *)
  templates : list (string * string);  (* the template folder *)
  stdout : list line;
  predict_calls : list ndarray2        (* arguments of every [model.predict] *)
}.

Definition set_model (m : option predictor) (p : process) : process :=
  {| model := m; templates := templates p; stdout := stdout p;
     predict_calls := predict_calls p |}.

(** Computations of the process: a result or an exception, and the
    process afterwards. *)
Definition M (A : Type) := process -> result A * process.

Definition ret {A} (a : A) : M A := fun p => (Ok a, p).
Definition raise {A} (e : exn) : M A := fun p => (Raise e, p).
Definition bind {A B} (m : M A) (k : A -> M B) : M B :=
  fun p =>
    match m p with
    | (Ok a, p') => k a p'
    | (Raise e, p') => (Raise e, p')
    end.
Definition lift {A} (r : result A) : M A := fun p => (r, p).

Notation "x <- m ;; k" := (bind m (fun x => k))
  (at level 61, m at next level, right associativity).
Notation "m ;;; k" := (bind m (fun _ => k))
  (at level 61, right associativity).

Definition print (l : line) : M unit :=
  fun p =>
    (Ok tt, {| model := model p; templates := templates p;
               stdout := stdout p ++ [l];
               predict_calls := predict_calls p |}).

(** Reading the global [model]. *)
Definition global_model : M predictor :=
  fun p =>
    match model p with
    | Some m => (Ok m, p)
    | None => (Raise NameError, p)
    end.

(** [m.predict(X)]; the call is recorded. *)
Definition call_predict (m : predictor) (X : ndarray2) : M ndarray1 :=
  fun p =>
    (m X, {| model := model p; templates := templates p;
             stdout := stdout p;
             predict_calls := predict_calls p ++ [X] |}).

(** [a[i]] *)
Definition getitem (a : ndarray1) (i : nat) : result float64 :=
  match nth_error a i with
  | Some x => Ok x
  | None => Raise IndexError
  end.

(** ** [request.form] and [float] *)

(** The form of a request: the submitted pairs in their order; a name may
    come twice. *)
Definition MultiDict := list (string * string).

(** [form.get(key)]: the first value under [key], or [None]. *)
Fixpoint get (form : MultiDict) (key : string) : option string :=
  match form with
  | [] => None
  | (k, v) :: rest => if String.eqb k key then Some v else get rest key
  end.

(** The builtin [float] on what [get] returns. *)
Definition float (v : option string) : result float64 :=
  match v with
  | None => Raise TypeError
  | Some s =>
      match float_of_string s with
      | Some x => Ok x
      | None => Raise ValueError
      end
  end.

(** ** The views *)

(** Lines 10-11. *)
Definition render_template (name : string) : M string :=
  fun p =>
    match get (templates p) name with
    | Some html => (Ok html, p)
    | None => (Raise TemplateNotFound, p)
    end.

Definition index : M string := render_template "index.html".

(** Lines 14-28. *)
Definition predict_placement (form : MultiDict) : M string :=
  carlength <- lift (float (get form "carlength")) ;;
  carwidth <- lift (float (get form "carwidth")) ;;
  carheight <- lift (float (get form "carheight")) ;;
  enginesize <- lift (float (get form "enginesize")) ;;
  horsepower <- lift (float (get form "horsepower")) ;;
  peakrpm <- lift (float (get form "peakrpm")) ;;
  print (InputData
           [carlength; carwidth; carheight; enginesize; horsepower; peakrpm]) ;;;
  m <- global_model ;;
  X <- lift (reshape
               (np_array [carlength; carwidth; carheight;
                          enginesize; horsepower; peakrpm]) 1 6) ;;
  result <- call_predict m X ;;
  print (Prediction result) ;;;
  r0 <- lift (getitem result 0) ;;
  ret (str_float64 r0).

(** ** Routing *)

Inductive http_method := GET | HEAD | POST | PUT | DELETE | OPTIONS | PATCH.

Definition http_method_eqb (a b : http_method) : bool :=
  match a, b with
  | GET, GET | HEAD, HEAD | POST, POST | PUT, PUT
  | DELETE, DELETE | OPTIONS, OPTIONS | PATCH, PATCH => true
  | _, _ => false
  end.

Inductive view := view_index | view_predict_placement.

(** Where a rule leads: to a view of the module, or to the files under
    [static/], which Flask serves by itself. *)
Inductive endpoint :=
| to_view (v : view)
| to_static.

(** The path of a rule: a fixed path without a slash at its end (as
    ["/predict"], or ["/"] itself), or a prefix with [<path:filename>]
    after it (as ["/static/<path:filename>"]). *)
Inductive pattern :=
| Exact (p : string)
| PathUnder (prefix : string).

Record rule := {
  rule_path : pattern;
  rule_methods : list http_method;
  rule_endpoint : endpoint
}.

Record request := {
  path : string;
  method : http_method;
  form : MultiDict
}.

Inductive response :=
| Response200 (body : string)
| StaticFile (filename : string)   (* what [send_static_file] answers *)
| Redirect308 (location : string)
| NotFound404
| MethodNotAllowed405
| InternalServerError500 (e : exn).

(** [app.route(path, methods=...)]: Flask adds [HEAD] to a rule that
    takes [GET], and [OPTIONS] to every rule. *)
Definition route (p : string) (methods : list http_method) (v : view) : rule :=
  {| rule_path := Exact p;
     rule_methods :=
       methods
       ++ (if existsb (http_method_eqb GET) methods then [HEAD] else [])
       ++ [OPTIONS];
     rule_endpoint := to_view v |}.

(** The rule that [Flask(__name__)] registers for the files under
    [static/]. *)
Definition static_rule : rule :=
  {| rule_path := PathUnder "/static/";
     rule_methods := [GET; HEAD; OPTIONS];
     rule_endpoint := to_static |}.

Definition Flask := list rule.

(** [Flask(__name__)], line 7. *)
Definition new_Flask : Flask := [static_rule].

(** What the [path] converter takes (the regular expression [[^/].*?]):
    a text that is not empty, does not start with a slash and has no line
    feed. *)
Definition is_filename (f : string) : bool :=
  match f with
  | EmptyString => false
  | String c _ =>
      negb (Ascii.eqb c "/")
      && negb (existsb (Ascii.eqb "010") (list_ascii_of_string f))
  end.

(** [s] without [pre] at its start. *)
Fixpoint strip_prefix (pre s : string) : option string :=
  match pre with
  | EmptyString => Some s
  | String a pre' =>
      match s with
      | String b s' => if Ascii.eqb a b then strip_prefix pre' s' else None
      | EmptyString => None
      end
  end.

(** The rule path against the path of a request; the file name when the
    rule has one. *)
Definition match_path (pt : pattern) (p : string) : option string :=
  match pt with
  | Exact s => if String.eqb s p then Some EmptyString else None
  | PathUnder pre =>
      match strip_prefix pre p with
      | Some f => if is_filename f then Some f else None
      | None => None
      end
  end.

Definition allows (u : rule) (m : http_method) : bool :=
  existsb (http_method_eqb m) (rule_methods u).

(** The rule for a path and a method. *)
Fixpoint lookup (app : Flask) (m : http_method) (p : string)
  : option (rule * string) :=
  match app with
  | [] => None
  | u :: rest =>
      match match_path (rule_path u) p with
      | Some f => if allows u m then Some (u, f) else lookup rest m p
      | None => lookup rest m p
      end
  end.

(** Some rule has this path, for whatever method. *)
Definition path_known (app : Flask) (p : string) : bool :=
  existsb (fun u => match match_path (rule_path u) p with
                    | Some _ => true
                    | None => false
                    end) app.

(** werkzeug's second try, [re.sub("/{2,}?", "/", path)]: each pair of
    slashes becomes one. *)
Fixpoint merge_slashes (p : string) : string :=
  match p with
  | EmptyString => EmptyString
  | String a tl =>
      match tl with
      | String b rest =>
          if Ascii.eqb a "/" && Ascii.eqb b "/"
          then String "/" (merge_slashes rest)
          else String a (merge_slashes tl)
      | EmptyString => p
      end
  end.

Definition run_view (v : view) (r : request) : M string :=
  match v with
  | view_index => index
  | view_predict_placement => predict_placement (form r)
  end.

(** One request.  The rule is looked up by path and method.  [OPTIONS]
    is answered by Flask itself, a file under [static/] by
    [send_static_file], and otherwise the view runs: an exception of the
    view becomes a 500 answer, and the answer to [HEAD] goes out without
    its body.  A path that has a rule only once its doubled slashes are
    merged is redirected there; a path that has a rule for other methods
    is answered 405, any other path 404. *)
Definition handle_request (app : Flask) (r : request)
  : process -> response * process :=
  fun p =>
    match lookup app (method r) (path r) with
    | Some (u, f) =>
        match method r with
        | OPTIONS => (Response200 EmptyString, p)
        | _ =>
            match rule_endpoint u with
            | to_static => (StaticFile f, p)
            | to_view v =>
                match run_view v r p with
                | (Ok body, p') =>
                    (Response200 (match method r with
                                  | HEAD => EmptyString
                                  | _ => body
                                  end),
                     p')
                | (Raise e, p') => (InternalServerError500 e, p')
                end
            end
        end
    | None =>
        let merged := merge_slashes (path r) in
        match lookup app (method r) merged with
        | Some _ => (Redirect308 merged, p)
        | None =>
            if path_known app (path r) || path_known app merged
            then (MethodNotAllowed405, p)
            else (NotFound404, p)
        end
    end.

(** ** The module from top to bottom *)

Inductive stmt :=
| LoadModel                 (* line 6 *)
| MakeApp                   (* line 7 *)
| AddRoute (u : rule)       (* lines 9 and 13 *)
| RunIfMain.                (* lines 30-31 *)

Definition app_py : list stmt :=
  [ LoadModel;
    MakeApp;
    AddRoute (route "/" [GET] view_index);
    AddRoute (route "/predict" [POST] view_predict_placement);
    RunIfMain ].

(** What the process finds around it: the content of [model_1.pkl]
    ([None] when it cannot be unpickled) and whether the module runs as
    the main program or is imported by a server. *)
Record environment := {
  artifact : option predictor;
  as_main : bool
}.

Inductive phase :=
| Importing (todo : list stmt)
| Serving (todo : list stmt)
| Exited.

Record system := {
  ph : phase;
  proc : process;
  app : option Flask;          (* the global [app] *)
  loads : nat;                 (* how often [pickle.load] was called *)
  served : list (request * response)
}.

Inductive event :=
| Next                      (* the interpreter runs the next statement *)
| Incoming (r : request)
| Stop.                     (* the server is told to stop *)

Definition boot (disk : list (string * string)) : system :=
  {| ph := Importing app_py;
     proc := {| model := None; templates := disk; stdout := [];
                predict_calls := [] |};
     app := None; loads := 0; served := [] |}.

Definition with_phase (f : phase) (s : system) : system :=
  {| ph := f; proc := proc s; app := app s; loads := loads s;
     served := served s |}.

(** One statement of the module, with [k] left after it.  An exception
    at the top level ends the process.  [app.run] serves until it is told
    to stop (with [debug=True] werkzeug serves from a child process, which
    runs the module again from its first line and is a [system] of its
    own). *)
Definition exec (env : environment) (c : stmt) (k : list stmt) (s : system)
  : system :=
  match c with
  | LoadModel =>
      match artifact env with
      | Some m =>
          {| ph := Importing k; proc := set_model (Some m) (proc s);
             app := app s; loads := S (loads s); served := served s |}
      | None =>
          {| ph := Exited; proc := proc s; app := app s;
             loads := S (loads s); served := served s |}
      end
  | MakeApp =>
      {| ph := Importing k; proc := proc s; app := Some new_Flask;
         loads := loads s; served := served s |}
  | AddRoute u =>
      match app s with
      | Some a =>
          {| ph := Importing k; proc := proc s; app := Some (a ++ [u]);
             loads := loads s; served := served s |}
      | None => with_phase Exited s
      end
  | RunIfMain =>
      if as_main env then
        match app s with
        | Some _ => with_phase (Serving k) s
        | None => with_phase Exited s
        end
      else with_phase (Importing k) s
  end.

(** One event.  A request that comes while the module is still being
    run, or after the process has ended, finds nobody and changes
    nothing. *)
Definition step (env : environment) (s : system) (ev : event) : system :=
  match ph s, ev with
  | Importing (c :: k), Next => exec env c k s
  | Importing [], Next =>
      if as_main env then with_phase Exited s
      else match app s with
           | Some _ => with_phase (Serving []) s
           | None => with_phase Exited s
           end
  | Serving k, Incoming r =>
      match app s with
      | Some a =>
          let (resp, p') := handle_request a r (proc s) in
          {| ph := Serving k; proc := p'; app := app s; loads := loads s;
             served := served s ++ [(r, resp)] |}
      | None => s
      end
  | Serving k, Stop =>
      if as_main env then with_phase (Importing k) s
      else with_phase Exited s
  | _, _ => s
  end.

Definition run (env : environment) (evs : list event) (s : system) : system :=
  fold_left (step env) evs s.

Definition is_serving (s : system) : bool :=
  match ph s with Serving _ => true | _ => false end.

(** * Vocabulary of the statements *)

(** ** Decimal literals *)

Module Literal.

Import PyFloat NpFloat.
Local Close Scope string_scope.

(** The characters of a printed number. *)
Definition plain (c : ascii) : bool :=
  is_digit c || Ascii.eqb c "." || Ascii.eqb c "e"
  || Ascii.eqb c "+" || Ascii.eqb c "-".

(** [r] does not go on with a digit. *)
Definition stops (r : list ascii) : Prop :=
  match r with
  | [] => True
  | c :: _ => is_digit c = false
  end.

Definition point_part (pt : option (list ascii)) : list ascii :=
  match pt with
  | Some fp => "."%char :: fp
  | None => []
  end.

Definition exp_part (ex : option (bool * list ascii)) : list ascii :=
  match ex with
  | Some (s, ed) => "e"%char :: (if s then "-"%char else "+"%char) :: ed
  | None => []
  end.

Definition digits (ds : list ascii) : Prop :=
  Forall (fun c => is_digit c = true) ds.

(** A decimal literal: sign, integer digits, optional point and fraction,
    optional exponent; at least one digit before the exponent, and one
    in it. *)
Record literal (ip : list ascii) (pt : option (list ascii))
               (ex : option (bool * list ascii)) : Prop := {
  lit_ip : digits ip;
  lit_fp : forall fp, pt = Some fp -> digits fp;
  lit_some : ip ++ match pt with Some fp => fp | None => [] end <> [];
  lit_ex : forall s ed, ex = Some (s, ed) -> ed <> [] /\ digits ed
}.

(** The digits found by the search. *)
Definition good (ds : list ascii) : Prop := digits ds /\ ds <> [].

End Literal.

(** ** The view and the process *)

Definition field_names : list string :=
  ["carlength"; "carwidth"; "carheight"; "enginesize"; "horsepower"; "peakrpm"].

(** The spec's [ParseError]: what [float] raises, [TypeError] on a missing
    field and [ValueError] on a text that is no number. *)
Definition ParseError (e : exn) : Prop := e = TypeError \/ e = ValueError.

(** The field [k] of [form] is missing or is no number. *)
Definition unreadable (form : MultiDict) (k : string) : Prop :=
  get form k = None
  \/ exists s, get form k = Some s /\ float_of_string s = None.

(** The process after the two [print]s and the call of a successful
    request. *)
Definition logged (p : process) (v : list float64) (r : option ndarray1)
  : process :=
  {| model := model p; templates := templates p;
     stdout := (stdout p ++ [InputData v])
               ++ match r with Some a => [Prediction a] | None => [] end;
     predict_calls := predict_calls p ++ [[v]] |}.


Definition keeps_model {A} (c : M A) : Prop :=
  forall p, model (snd (c p)) = model p.

(** The rules of [app] once the module has run: the one of
    [Flask(__name__)] and the routes of lines 9 and 13. *)
Definition the_app : Flask :=
  [ static_rule;
    route "/" [GET] view_index;
    route "/predict" [POST] view_predict_placement ].

Definition post (f : MultiDict) : request :=
  {| path := "/predict"; method := POST; form := f |}.

(** ** The life of the process *)

(** The global [app] when [n] statements of the module have run. *)
Definition registered (n : nat) : option Flask :=
  match n with
  | 0%nat | 1%nat => None
  | 2%nat => Some new_Flask
  | 3%nat => Some [static_rule; route "/" [GET] view_index]
  | _ => Some the_app
  end.

(** Nothing has run yet. *)
Definition fresh (s : system) : Prop :=
  loads s = 0%nat /\ model (proc s) = None /\ served s = [].

(** The artifact was unpickled, once, and [model] holds it. *)
Definition loaded (env : environment) (s : system) : Prop :=
  loads s = 1%nat
  /\ exists m, artifact env = Some m /\ model (proc s) = Some m.

(** The process has run the first [n] statements of the module and has
    [k] before it. *)
Definition at_statement (env : environment) (n : nat) (k : list stmt)
           (s : system) : Prop :=
  k = skipn n app_py
  /\ app s = registered n
  /\ match n with
     | O => fresh s
     | S _ => loaded env s
     end.

Definition inv (env : environment) (s : system) : Prop :=
  match ph s with
  | Importing k => exists n, at_statement env n k s
  | Serving k => exists n, (5 <= n)%nat /\ at_statement env n k s
  | Exited => loads s = 1%nat
  end.

(** ** Sample data *)

(** A predictor to run the statements on: the first feature of each row. *)
Definition first_feature : predictor :=
  fun X => Ok (map (fun row => hd (S754_zero false) row) X).

(** A predictor that, as scikit-learn does, refuses a NaN. *)
Definition fussy : predictor :=
  fun X =>
    if existsb (existsb (float64_eqb S754_nan)) X
    then Raise ValueError
    else Ok (map (fun row => hd (S754_zero false) row) X).

Definition serving_with (m : predictor) : process :=
  {| model := Some m; templates := []; stdout := []; predict_calls := [] |}.

Definition scenario_form : MultiDict :=
  [ ("carlength", "170"); ("carwidth", "65"); ("carheight", "55");
    ("enginesize", "130"); ("horsepower", "110"); ("peakrpm", "5500") ].

Definition scenario_vector : list float64 :=
  map float_of_Z [170; 65; 55; 130; 110; 5500]%Z.

Definition without_horsepower : MultiDict :=
  [ ("carlength", "170"); ("carwidth", "65"); ("carheight", "55");
    ("enginesize", "130"); ("peakrpm", "5500") ].

Definition with_bad_carwidth : MultiDict :=
  [ ("carlength", "170"); ("carwidth", "abc"); ("carheight", "55");
    ("enginesize", "130"); ("horsepower", "110"); ("peakrpm", "5500") ].

Definition with_extra_fields : MultiDict :=
  ("fueltype", "gas") :: ("carlength ", "1") :: scenario_form
  ++ [("carwidth", "0"); ("price", "1e6")].

Definition odd_form : MultiDict :=
  [ ("carlength", "nan"); ("carwidth", "inf"); ("carheight", "-inf");
    ("enginesize", "-130"); ("horsepower", "-0"); ("peakrpm", "1e999") ].

Definition odd_vector : list float64 :=
  [ S754_nan; S754_infinity false; S754_infinity true;
    float_of_Z (-130); S754_zero true; S754_infinity false ].

(** ** Effects and shapes *)

(** [p'] is [p] with [lines] printed and [calls] made, and nothing else
    changed. *)
Definition extends (p p' : process) (lines : list line)
           (calls : list ndarray2) : Prop :=
  model p' = model p
  /\ templates p' = templates p
  /\ stdout p' = stdout p ++ lines
  /\ predict_calls p' = predict_calls p ++ calls.

(** The array [np.array([...]).reshape(1, 6)] of line 24: one row of six. *)
Definition one_row_of_six (X : ndarray2) : Prop :=
  exists row, X = [row] /\ List.length row = 6%nat.

(** The field [k] of [form] is there and is a number. *)
Definition readable (form : MultiDict) (k : string) : Prop :=
  exists x, float (get form k) = Ok x.

(** Characters that [float] strips at both ends. *)
Definition blanks (w : list ascii) : Prop :=
  Forall (fun c => PyFloat.Py_ISSPACE c = true) w.

(** A text of blanks only (the empty text is one). *)
Definition blank (s : string) : Prop :=
  Forall (fun c => PyFloat.Py_ISSPACE c = true) (list_ascii_of_string s).

(** What [float] raises on the unreadable field [k]. *)
Definition exception_of (form : MultiDict) (k : string) : exn :=
  match get form k with
  | None => TypeError
  | Some _ => ValueError
  end.

(** An answer in the log that, if it is a prediction, reads as a number. *)
Definition numeric_answer (entry : request * response) : Prop :=
  path (fst entry) = "/predict" -> method (fst entry) = POST ->
  forall body, snd entry = Response200 body ->
  exists y, float_of_string body = Some y.

(** The answer Flask makes of what a view returned. *)
Definition answer_of (m : http_method) (out : result string * process)
  : response * process :=
  match out with
  | (Ok body, p') =>
      (Response200 (match m with HEAD => EmptyString | _ => body end), p')
  | (Raise e, p') => (InternalServerError500 e, p')
  end.

(** Every call of [predict] so far was on one row of six. *)
Definition calls_well_shaped (s : system) : Prop :=
  Forall one_row_of_six (predict_calls (proc s)).

(** Nothing was served and nothing can be. *)
Definition never_started (s : system) : Prop :=
  (ph s = Importing app_py \/ ph s = Exited)
  /\ served s = [] /\ app s = None /\ model (proc s) = None
  /\ predict_calls (proc s) = [] /\ stdout (proc s) = [].

(** How many statements the events let the interpreter run. *)
Fixpoint count_next (evs : list event) : nat :=
  match evs with
  | [] => O
  | Next :: evs' => S (count_next evs')
  | _ :: evs' => count_next evs'
  end.

Definition is_stop (ev : event) : bool :=
  match ev with Stop => true | _ => false end.

(** The server was stopped, or the process has ended. *)
Definition stopped (env : environment) (s : system) : Prop :=
  ph s = Exited \/ (ph s = Importing [] /\ as_main env = true).

(** The process serves, or will once [n] more statements have run. *)
Definition on_the_way (s : system) (n : nat) : Prop :=
  is_serving s = true
  \/ exists k, ph s = Importing k /\ k <> [] /\ (List.length k <= n)%nat.

Definition get_predict : request :=
  {| path := "/predict"; method := GET; form := scenario_form |}.

Definition shuffled_form : MultiDict :=
  [ ("peakrpm", "5500"); ("carheight", "55"); ("horsepower", "110");
    ("carlength", "170"); ("enginesize", "130"); ("carwidth", "65") ].

Definition blank_horsepower : MultiDict :=
  [ ("carlength", "170"); ("carwidth", "65"); ("carheight", "55");
    ("enginesize", "130"); ("horsepower", ""); ("peakrpm", "5500") ].

(** * Properties *)

(** ** Texts that [float] reads *)

Module LiteralFacts.

Import PyFloat NpFloat Literal.
Local Close Scope string_scope.

Ltac by_cases_on c :=
  destruct c as [[] [] [] [] [] [] [] []]; vm_compute; intros;
  try reflexivity; try discriminate; auto.

Lemma plain_ascii c : plain c = true -> (code c <=? 127)%N = true.
Proof. by_cases_on c. Qed.

Lemma plain_not_space c : plain c = true -> Py_ISSPACE c = false.
Proof. by_cases_on c. Qed.

Lemma plain_not_underscore c : plain c = true -> Ascii.eqb c "_" = false.
Proof. by_cases_on c. Qed.

Lemma digit_plain c : is_digit c = true -> plain c = true.
Proof. unfold plain. intros ->. reflexivity. Qed.

Lemma digit_not_sign c :
  is_digit c = true -> c <> "-"%char /\ c <> "+"%char.
Proof. intros H; split; intros ->; discriminate H. Qed.

Lemma transform_plain s : Forall (fun c => plain c = true) s -> transform s = s.
Proof.
  induction 1 as [|c s Hc _ IH]; simpl; [reflexivity|].
  rewrite (plain_ascii c Hc), IH. reflexivity.
Qed.

Lemma lstrip_plain s : Forall (fun c => plain c = true) s -> lstrip s = s.
Proof.
  destruct 1 as [|c s Hc _]; simpl; [reflexivity|].
  rewrite (plain_not_space c Hc). reflexivity.
Qed.

Lemma rstrip_plain s : Forall (fun c => plain c = true) s -> rstrip s = s.
Proof.
  induction 1 as [|c s Hc _ IH]; simpl; [reflexivity|].
  rewrite IH, (plain_not_space c Hc). destruct s; reflexivity.
Qed.

Lemma drop_underscores_plain s : forall prev,
  Forall (fun c => plain c = true) s ->
  Ascii.eqb prev "_" = false ->
  drop_underscores prev s = Some s.
Proof.
  induction s as [|c s IH]; intros prev Hs Hp; simpl.
  - rewrite Hp. reflexivity.
  - inversion Hs as [|? ? Hc Hs']; subst.
    rewrite (plain_not_underscore c Hc), Hp. simpl.
    rewrite (IH c Hs' (plain_not_underscore c Hc)). reflexivity.
Qed.

(** A plain text goes through stripping and underscore handling as it is. *)
Lemma float_of_chars_plain s :
  s <> [] ->
  Forall (fun c => plain c = true) s ->
  float_of_chars s = from_string_inner s.
Proof.
  intros Hne Hs. unfold float_of_chars.
  rewrite (transform_plain s Hs), (lstrip_plain s Hs).
  destruct s as [|c s]; [contradiction|].
  rewrite (rstrip_plain _ Hs).
  rewrite (drop_underscores_plain _ zero Hs (eq_refl _)). reflexivity.
Qed.

Lemma span_digits_app ds : forall r,
  Forall (fun c => is_digit c = true) ds -> stops r ->
  span_digits (ds ++ r) = (ds, r).
Proof.
  induction ds as [|d ds IH]; intros r Hd Hr; cbn [span_digits List.app].
  - destruct r as [|c r]; [reflexivity|]. cbn [span_digits].
    unfold stops in Hr. rewrite Hr. reflexivity.
  - inversion Hd as [|? ? H1 H2]; subst. rewrite H1, (IH r H2 Hr). reflexivity.
Qed.

Lemma span_digits_all ds :
  Forall (fun c => is_digit c = true) ds -> span_digits ds = (ds, []).
Proof.
  intros H. rewrite <- (app_nil_r ds) at 1. apply span_digits_app; simpl; auto.
Qed.

Lemma read_sign_other c r :
  c <> "-"%char -> c <> "+"%char -> read_sign (c :: r) = (false, c :: r).
Proof.
  intros H1 H2.
  destruct c as [[] [] [] [] [] [] [] []]; try reflexivity;
    exfalso; (apply H1; reflexivity) || (apply H2; reflexivity).
Qed.

Lemma stops_exp_part ex r : r = [] -> stops (exp_part ex ++ r).
Proof. intros ->. destruct ex as [[s ed]|]; simpl; auto. Qed.

Lemma read_exponent_part ex :
  (forall s ed, ex = Some (s, ed) -> ed <> [] /\ digits ed) ->
  exists e, read_exponent (exp_part ex) = (e, []).
Proof.
  intros H. destruct ex as [[s ed]|]; [|exists 0; reflexivity].
  destruct (H s ed eq_refl) as [Hne Hd].
  unfold exp_part, read_exponent.
  replace (Ascii.eqb "e" "e" || Ascii.eqb "e" "E") with true by reflexivity.
  replace (read_sign ((if s then "-"%char else "+"%char) :: ed))
    with (s, ed) by (destruct s; reflexivity).
  rewrite (span_digits_all ed Hd).
  destruct ed as [|d ed]; [contradiction|]. eexists. reflexivity.
Qed.

Lemma dg_strtod_literal neg ip pt ex :
  literal ip pt ex ->
  exists y,
    dg_strtod (sign_chars neg ++ ip ++ point_part pt ++ exp_part ex)
    = Some (y, []).
Proof.
  intros [Hip Hfp Hsome Hex].
  destruct (read_exponent_part ex Hex) as [e He].
  assert (Hsign : read_sign (sign_chars neg ++ ip ++ point_part pt ++ exp_part ex)
                  = (neg, ip ++ point_part pt ++ exp_part ex)).
  { destruct neg; [reflexivity|]. cbn [sign_chars List.app].
    destruct ip as [|d ip].
    - destruct pt as [fp|]; [reflexivity|]. exfalso. apply Hsome. reflexivity.
    - inversion Hip as [|? ? Hd _]; subst.
      destruct (digit_not_sign d Hd) as [H1 H2].
      apply read_sign_other; assumption. }
  unfold dg_strtod. rewrite Hsign.
  rewrite (span_digits_app ip (point_part pt ++ exp_part ex) Hip).
  2:{ destruct pt as [fp|]; cbn [point_part List.app stops];
      [reflexivity | rewrite <- (app_nil_r (exp_part ex)); now apply stops_exp_part]. }
  destruct pt as [fp|].
  - cbn [point_part List.app].
    rewrite (span_digits_app fp (exp_part ex) (Hfp fp eq_refl)).
    2:{ rewrite <- (app_nil_r (exp_part ex)); now apply stops_exp_part. }
    destruct (ip ++ fp) as [|d ds] eqn:E; [contradiction|].
    rewrite He. eexists. reflexivity.
  - cbn [point_part List.app].
    rewrite app_nil_r in Hsome.
    assert (Hnp : match exp_part ex with
                  | "."%char :: r => span_digits r
                  | _ => ([], exp_part ex)
                  end = ([], exp_part ex)).
    { destruct ex as [[s ed]|]; reflexivity. }
    rewrite Hnp, app_nil_r.
    destruct ip as [|d ds]; [contradiction|].
    rewrite He. eexists. reflexivity.
Qed.

Lemma literal_plain neg ip pt ex :
  literal ip pt ex ->
  Forall (fun c => plain c = true)
         (sign_chars neg ++ ip ++ point_part pt ++ exp_part ex).
Proof.
  intros [Hip Hfp _ Hex].
  assert (Hd : forall ds, digits ds -> Forall (fun c => plain c = true) ds).
  { intros ds H. eapply Forall_impl; [|exact H]. apply digit_plain. }
  apply Forall_app; split; [|apply Forall_app; split; [|apply Forall_app; split]].
  - destruct neg; repeat constructor.
  - auto.
  - destruct pt as [fp|]; [|constructor].
    constructor; [reflexivity|]. apply Hd, (Hfp fp eq_refl).
  - destruct ex as [[s ed]|]; [|constructor].
    destruct (Hex s ed eq_refl) as [_ H].
    constructor; [reflexivity|]. constructor; [destruct s; reflexivity|].
    apply Hd, H.
Qed.

(** [float] reads every decimal literal. *)
Lemma float_of_chars_literal neg ip pt ex :
  literal ip pt ex ->
  exists y,
    float_of_chars (sign_chars neg ++ ip ++ point_part pt ++ exp_part ex)
    = Some y.
Proof.
  intros L.
  rewrite float_of_chars_plain.
  - destruct (dg_strtod_literal neg ip pt ex L) as [y Hy].
    exists y. unfold from_string_inner, ascii_strtod. rewrite Hy. reflexivity.
  - destruct L as [_ _ Hsome _]. intros E.
    apply app_eq_nil in E as [_ E]. apply app_eq_nil in E as [E1 E2].
    apply app_eq_nil in E2 as [E2 _].
    destruct pt; [discriminate E2|]. subst ip. apply Hsome. reflexivity.
  - apply literal_plain, L.
Qed.

(** *** What [str_float64] prints *)

Lemma digits_chars_of_uint u : digits (chars_of_uint u).
Proof. induction u; simpl; constructor; auto. Qed.

Lemma digits_chars_of_pos p : digits (chars_of_pos p).
Proof. apply digits_chars_of_uint. Qed.

Lemma chars_of_pos_nonempty p : chars_of_pos p <> [].
Proof.
  unfold chars_of_pos.
  pose proof (DecimalPos.Unsigned.to_uint_nonnil p) as H.
  destruct (Pos.to_uint p); [contradiction|..]; discriminate.
Qed.

Lemma digit_succ c :
  is_digit c = true ->
  is_digit (if Ascii.eqb c "9" then "0"%char else ascii_of_N (code c + 1))
  = true.
Proof. by_cases_on c. Qed.

Lemma digits_incr_rev ds : digits ds -> digits (incr_rev ds).
Proof.
  induction 1 as [|c ds Hc Hd IH]; cbn [incr_rev]; [repeat constructor|].
  pose proof (digit_succ c Hc) as H.
  destruct (Ascii.eqb c "9"); constructor; auto.
Qed.

Lemma incr_rev_nonempty ds : incr_rev ds <> [].
Proof. destruct ds as [|c ds]; simpl; [|destruct (Ascii.eqb c "9")]; discriminate. Qed.

Lemma digits_rev ds : digits ds -> digits (rev ds).
Proof. intros H. apply Forall_rev, H. Qed.

Lemma digits_incr ds : digits ds -> digits (incr ds).
Proof. intros H. apply digits_rev, digits_incr_rev, digits_rev, H. Qed.

Lemma incr_nonempty ds : incr ds <> [].
Proof.
  unfold incr. intros E. apply (incr_rev_nonempty (rev ds)).
  rewrite <- (rev_involutive (incr_rev (rev ds))), E. reflexivity.
Qed.

Lemma digits_firstn_skipn n ds :
  digits ds -> digits (firstn n ds) /\ digits (skipn n ds).
Proof.
  intros H. rewrite <- (firstn_skipn n ds) in H.
  apply Forall_app in H. exact H.
Qed.

Lemma digits_firstn n ds : digits ds -> digits (firstn n ds).
Proof. intros H. apply (digits_firstn_skipn n ds H). Qed.

Lemma digits_skipn n ds : digits ds -> digits (skipn n ds).
Proof. intros H. apply (digits_firstn_skipn n ds H). Qed.

Lemma digits_drop_zeros ds : digits ds -> digits (drop_zeros ds).
Proof.
  induction 1 as [|c ds Hc Hd IH]; simpl; [constructor|].
  destruct (Ascii.eqb c "0"); [exact IH | constructor; assumption].
Qed.

Lemma digits_trim ds : digits ds -> digits (trim ds).
Proof.
  destruct 1 as [|c ds Hc Hd]; simpl; constructor; auto.
  apply digits_rev, digits_drop_zeros, digits_rev, Hd.
Qed.

Lemma trim_nonempty ds : ds <> [] -> trim ds <> [].
Proof. destruct ds; [contradiction | discriminate]. Qed.

Lemma digits_zeros n : digits (zeros n).
Proof. unfold zeros. apply Forall_forall. intros c Hc.
  apply repeat_spec in Hc. subst c. reflexivity. Qed.

Section SearchFacts.

Variable neg : bool.
Variable x : float64.
Variable D : list ascii.
Variable decpt : Z.
Hypothesis HD : good D.

Lemma good_below n : (1 <= n)%nat -> good (fst (below D decpt n)).
Proof.
  intros Hn. destruct HD as [H1 H2]. split; simpl.
  - apply digits_firstn, H1.
  - destruct n as [|n]; [lia|]. destruct D; [contradiction | discriminate].
Qed.

Lemma good_above n : good (fst (above D decpt n)).
Proof.
  destruct HD as [H1 _]. split; simpl.
  - apply digits_incr, digits_firstn, H1.
  - apply incr_nonempty.
Qed.

Lemma good_nearest n : (1 <= n)%nat -> good (fst (nearest D decpt n)).
Proof.
  intros Hn. unfold nearest.
  destruct (nearer_above D n); [apply good_above | apply good_below, Hn].
Qed.

Lemma good_candidate n c :
  (1 <= n)%nat -> candidate neg x D decpt n = Some c -> good (fst c).
Proof.
  intros Hn. unfold candidate.
  destruct (reads_as neg x (below D decpt n)),
           (reads_as neg x (above D decpt n)); simpl;
    intros E; inversion E; subst;
    auto using good_nearest, good_below, good_above.
Qed.

Lemma good_search fuel : forall n,
  (1 <= n)%nat -> good (fst (search neg x D decpt fuel n)).
Proof.
  induction fuel as [|fuel IH]; intros n Hn; simpl.
  - apply good_nearest, Hn.
  - destruct (candidate neg x D decpt n) as [c|] eqn:E.
    + apply (good_candidate n c Hn E).
    + apply IH. lia.
Qed.

End SearchFacts.

Lemma good_shortest_digits neg m e : good (fst (shortest_digits neg m e)).
Proof.
  unfold shortest_digits.
  set (D := chars_of_pos _). set (decpt := _ - _).
  pose proof (good_search neg (S754_finite neg m e) D decpt
                (conj (digits_chars_of_pos _) (chars_of_pos_nonempty _))
                16 1 (le_n 1)) as [H1 H2].
  destruct (search neg (S754_finite neg m e) D decpt 16 1) as [ds p].
  simpl in *. split; [apply digits_trim, H1 | apply trim_nonempty, H2].
Qed.

Lemma exponent_chars_shape e :
  exists ed, ed <> [] /\ digits ed /\
    "e"%char :: exponent_chars e = exp_part (Some (e <? 0, ed)).
Proof.
  unfold exponent_chars.
  set (ds := match Z.abs e with Zpos p => chars_of_pos p | _ => ["0"%char] end).
  assert (Hds : good ds).
  { unfold ds. destruct (Z.abs e).
    - split; [repeat constructor | discriminate].
    - split; [apply digits_chars_of_pos | apply chars_of_pos_nonempty].
    - split; [repeat constructor | discriminate]. }
  destruct Hds as [H1 H2].
  destruct ds as [|d [|d' r]]; [contradiction | |].
  - exists ["0"%char; d]. split; [discriminate | split].
    + constructor; [reflexivity | exact H1].
    + cbn [exp_part]. destruct (e <? 0); reflexivity.
  - exists (d :: d' :: r). split; [discriminate | split; [exact H1|]].
    cbn [exp_part]. destruct (e <? 0); reflexivity.
Qed.

Lemma format_digits_literal ds p :
  good ds ->
  exists ip pt ex,
    literal ip pt ex /\
    format_digits ds p = ip ++ point_part pt ++ exp_part ex.
Proof.
  intros [Hd Hne]. unfold format_digits.
  destruct ((p <=? -4) || (16 <? p)).
  - destruct (exponent_chars_shape (p - 1)) as (ed & E1 & E2 & E3).
    destruct ds as [|d [|d' r]]; [contradiction | |].
    + exists [d], None, (Some (p - 1 <? 0, ed)). split.
      * constructor; [exact Hd | discriminate | discriminate |].
        intros s ed' E; inversion E; subst; auto.
      * cbn [point_part List.app]. rewrite <- E3. reflexivity.
    + exists [d], (Some (d' :: r)), (Some (p - 1 <? 0, ed)). split.
      * inversion Hd as [|? ? Hd1 Hd2]; subst.
        constructor; [repeat constructor; exact Hd1 | | discriminate |].
        -- intros fp E; inversion E; subst; exact Hd2.
        -- intros s ed' E; inversion E; subst; auto.
      * cbn [point_part List.app]. rewrite <- E3. reflexivity.
  - destruct (p <=? 0).
    + exists ["0"%char], (Some (zeros (- p) ++ ds)), None. split.
      * constructor; [repeat constructor | | discriminate | discriminate].
        intros fp E; inversion E; subst.
        apply Forall_app; split; [apply digits_zeros | exact Hd].
      * cbn [point_part exp_part List.app]. rewrite app_nil_r. reflexivity.
    + destruct (p <? Z.of_nat (List.length ds)) eqn:Hp.
      * exists (firstn (Z.to_nat p) ds), (Some (skipn (Z.to_nat p) ds)), None.
        split.
        -- constructor; [apply digits_firstn, Hd | | | discriminate].
           ++ intros fp E; inversion E; subst. apply digits_skipn, Hd.
           ++ rewrite firstn_skipn. exact Hne.
        -- cbn [point_part exp_part]. rewrite app_nil_r. reflexivity.
      * exists (ds ++ zeros (p - Z.of_nat (List.length ds))),
               (Some ["0"%char]), None.
        split.
        -- constructor; [ | | | discriminate].
           ++ apply Forall_app; split; [exact Hd | apply digits_zeros].
           ++ intros fp E; inversion E; subst. repeat constructor.
           ++ intros E. apply app_eq_nil in E as [E _].
              apply app_eq_nil in E as [E _]. contradiction.
        -- cbn [point_part exp_part]. rewrite app_nil_r, <- app_assoc.
           reflexivity.
Qed.

(** [float] reads whatever [str] prints of a [float64]. *)
Lemma float_of_chars_str_chars x :
  exists y, float_of_chars (str_chars x) = Some y.
Proof.
  assert (Hsmall : forall s,
    (exists y, float_of_chars (sign_chars s ++ list_ascii_of_string "0.0") = Some y)
    /\ (exists y, float_of_chars (sign_chars s ++ list_ascii_of_string "inf") = Some y)
    /\ (exists y, float_of_chars (list_ascii_of_string "nan") = Some y)).
  { intros s. repeat split; destruct s; eexists; vm_compute; reflexivity. }
  destruct x as [s|s| |s m e]; cbn [str_chars];
    try (apply (Hsmall s)); try (apply (Hsmall true)).
  destruct (binary_round prec emax s m e) as [s'|s'| |s' m' e'];
    try (apply (Hsmall s)).
  pose proof (good_shortest_digits s m' e') as Hg.
  destruct (shortest_digits s m' e') as [ds p]. cbn [fst] in Hg.
  destruct (format_digits_literal ds p Hg) as (ip & pt & ex & L & E).
  rewrite E. apply float_of_chars_literal, L.
Qed.

End LiteralFacts.

Lemma float_of_string_str_float64 (x : float64) :
  exists y, float_of_string (str_float64 x) = Some y.
Proof.
  unfold float_of_string, str_float64.
  rewrite list_ascii_of_string_of_list_ascii.
  apply LiteralFacts.float_of_chars_str_chars.
Qed.

(** What [float] takes and what it refuses. *)
Example float_of_string_examples :
  map (fun s => match float_of_string s with Some _ => true | None => false end)
      [" 12 "; "1_000"; "+1.5e3"; ".5"; "5."; "1e-2"; "Infinity"; "+NaN";
       "-0"; "1E5"; "0001"]
  = repeat true 11
  /\ map float_of_string
       [" "; "abc"; "1e"; "1_"; "_1"; "1__0"; "0x10"; "1,5"; "1.2.3";
        "--1"; "e5"; "."; "12abc"; "1 2"; "infin"; "1e+"; "nan0"; "$5"]
     = repeat None 18
  /\ map float_of_string ["0.5"; "1e3"; "9007199254740993"; "2.4e-324"; "1e999"]
     = [Some (S754_finite false 4503599627370496 (-53));
        Some (float_of_Z 1000); Some (float_of_Z 9007199254740992);
        Some (S754_zero false); Some (S754_infinity false)].
Proof. vm_compute. repeat split. Qed.

(** Reading, printing and reading back, on some doubles. *)
Example reads_back_examples :
  forallb (fun s =>
             match float_of_string s with
             | Some x =>
                 match float_of_string (str_float64 x) with
                 | Some y => float64_eqb x y
                 | None => false
                 end
             | None => false
             end)
          ["170"; "0.1"; "0.30000000000000004"; "1e16"; "123456.789";
           "5e-324"; "2.2250738585072014e-308"; "1.7976931348623157e308";
           "-13495.5"; "1e22"; "1e23"; "9007199254740993"; "inf"; "-inf";
           "nan"; "-0"; "4.35"; "5.684341886080801486968994140625e-14"]
  = true.
Proof. vm_compute. reflexivity. Qed.

(** Printing, on some doubles. *)
Example str_float64_examples :
  map (fun s => option_map str_float64 (float_of_string s))
      ["170"; "0.1"; "1e16"; "1e-5"; "-2.50"; "5e-324"; "0.30000000000000004";
       "1.7976931348623157e308"; "-0"; "inf"; "NaN"]
  = map Some
      ["170.0"; "0.1"; "1e+16"; "1e-05"; "-2.5"; "5e-324";
       "0.30000000000000004"; "1.7976931348623157e+308"; "-0.0"; "inf"; "nan"].
Proof. vm_compute. reflexivity. Qed.

(** ** The view [predict_placement] *)

Lemma float_unreadable form k :
  unreadable form k <->
  (float (get form k) = Raise TypeError \/ float (get form k) = Raise ValueError).
Proof.
  unfold unreadable, float. split.
  - intros [-> | (s & -> & ->)]; auto.
  - destruct (get form k) as [s|]; [|auto].
    destruct (float_of_string s) eqn:E.
    + intros [H|H]; discriminate H.
    + intros _. right. exists s. auto.
Qed.

Lemma float_cases form k :
  (exists x, float (get form k) = Ok x) \/ unreadable form k.
Proof.
  unfold unreadable, float.
  destruct (get form k) as [s|]; [|auto].
  destruct (float_of_string s) eqn:E; [left; eauto | right; right; eauto].
Qed.

(** One conversion of the view: it succeeds, or it is the first to fail
    and decides the outcome. *)
Ltac first_failure form k0 :=
  let Hx := fresh "Hx" in
  destruct (float_cases form k0) as [[? Hx]|Hx];
  [ rewrite Hx
  | apply float_unreadable in Hx; exists k0;
    destruct Hx as [Hx|Hx]; eexists; rewrite Hx;
    (split; [simpl; tauto | split; [reflexivity | split; [|reflexivity]]]);
    [left | right]; reflexivity ].

Section Handler.

Variable form : MultiDict.
Variable p : process.

(** The view after six successful conversions. *)
Lemma predict_placement_parsed v1 v2 v3 v4 v5 v6 :
  float (get form "carlength") = Ok v1 ->
  float (get form "carwidth") = Ok v2 ->
  float (get form "carheight") = Ok v3 ->
  float (get form "enginesize") = Ok v4 ->
  float (get form "horsepower") = Ok v5 ->
  float (get form "peakrpm") = Ok v6 ->
  let v := [v1; v2; v3; v4; v5; v6] in
  predict_placement form p =
  match model p with
  | None => (Raise NameError, 
             {| model := model p; templates := templates p;
                stdout := stdout p ++ [InputData v];
                predict_calls := predict_calls p |})
  | Some m =>
      match m [v] with
      | Ok (x :: r) => (Ok (str_float64 x), logged p v (Some (x :: r)))
      | Ok [] => (Raise IndexError, logged p v (Some []))
      | Raise e => (Raise e, logged p v None)
      end
  end.
Proof.
  intros H1 H2 H3 H4 H5 H6 v.
  unfold predict_placement, bind, lift.
  rewrite H1, H2, H3, H4, H5, H6.
  unfold print, global_model, call_predict, reshape, np_array, ret, logged.
  cbn [model templates stdout predict_calls].
  destruct (model p) as [m|]; [|reflexivity].
  cbn [List.length Nat.mul Nat.add Nat.eqb rows_of firstn skipn].
  fold v.
  destruct (m [v]) as [[|x r]|e]; cbn [getitem nth_error];
    rewrite ?app_nil_r; reflexivity.
Qed.

(** The view when a conversion fails: the exception of the first field
    that fails, and the process as it was. *)
Lemma predict_placement_unreadable k :
  In k field_names -> unreadable form k ->
  exists k' e,
    In k' field_names /\ float (get form k') = Raise e /\ ParseError e
    /\ predict_placement form p = (Raise e, p).
Proof.
  intros Hk Hu. apply float_unreadable in Hu.
  unfold predict_placement, bind, lift.
  unfold field_names in Hk. simpl in Hk.
  first_failure form "carlength".
  first_failure form "carwidth".
  first_failure form "carheight".
  first_failure form "enginesize".
  first_failure form "horsepower".
  first_failure form "peakrpm".
  exfalso.
  destruct Hk as [<-|[<-|[<-|[<-|[<-|[<-|[]]]]]]];
    destruct Hu as [Hu|Hu]; congruence.
Qed.

End Handler.

(** ** What a computation leaves alone *)

Lemma keeps_model_ret {A} (a : A) : keeps_model (ret a).
Proof. intros p. reflexivity. Qed.

Lemma keeps_model_lift {A} (r : result A) : keeps_model (lift r).
Proof. intros p. reflexivity. Qed.

Lemma keeps_model_print l : keeps_model (print l).
Proof. intros p. reflexivity. Qed.

Lemma keeps_model_global_model : keeps_model global_model.
Proof.
  intros p. unfold global_model.
  destruct (model p) eqn:E; cbn [snd]; [exact E | exact E].
Qed.

Lemma keeps_model_call_predict m X : keeps_model (call_predict m X).
Proof. intros p. reflexivity. Qed.

Lemma keeps_model_render_template name : keeps_model (render_template name).
Proof.
  intros p. unfold render_template. destruct (get (templates p) name); reflexivity.
Qed.

Lemma keeps_model_bind {A B} (c : M A) (k : A -> M B) :
  keeps_model c -> (forall a, keeps_model (k a)) -> keeps_model (bind c k).
Proof.
  intros Hc Hk p. unfold bind. specialize (Hc p).
  destruct (c p) as [[a|e] p']; cbn [snd] in *.
  - rewrite (Hk a p'). exact Hc.
  - exact Hc.
Qed.

Create HintDb frame.

#[local] Hint Resolve keeps_model_ret keeps_model_lift keeps_model_print
  keeps_model_global_model keeps_model_call_predict
  keeps_model_render_template : frame.

Lemma keeps_model_predict_placement form : keeps_model (predict_placement form).
Proof.
  unfold predict_placement.
  repeat (apply keeps_model_bind; [auto with frame | intros ?]).
  auto with frame.
Qed.

Lemma keeps_model_run_view v r : keeps_model (run_view v r).
Proof.
  destruct v; cbn [run_view].
  - apply keeps_model_render_template.
  - apply keeps_model_predict_placement.
Qed.

Lemma answer_of_process m out : snd (answer_of m out) = snd out.
Proof. destruct out as [[b|e] p']; reflexivity. Qed.

(** A request leaves the process as it was, or runs the view of the rule
    that its path and its method select. *)
Lemma handle_request_cases a r p :
  snd (handle_request a r p) = p
  \/ exists u f v,
       lookup a (method r) (path r) = Some (u, f)
       /\ rule_endpoint u = to_view v
       /\ method r <> OPTIONS
       /\ handle_request a r p = answer_of (method r) (run_view v r p).
Proof.
  unfold handle_request.
  destruct (lookup a (method r) (path r)) as [[u f]|].
  - destruct (rule_endpoint u) as [v|] eqn:Eu.
    + destruct (method r) eqn:Em; try (left; reflexivity);
        right; exists u, f, v;
        (split; [reflexivity|]); (split; [exact Eu|]);
        (split; [discriminate|]); unfold answer_of;
        destruct (run_view v r p) as [[b|e] p']; reflexivity.
    + left. destruct (method r); reflexivity.
  - left. cbv zeta.
    destruct (lookup a (method r) (merge_slashes (path r))); [reflexivity|].
    destruct (path_known a (path r) || path_known a (merge_slashes (path r)));
      reflexivity.
Qed.

Lemma handle_request_model a r p : model (snd (handle_request a r p)) = model p.
Proof.
  destruct (handle_request_cases a r p) as [-> | (u & f & v & _ & _ & _ & ->)];
    [reflexivity|].
  rewrite answer_of_process. apply keeps_model_run_view.
Qed.

(** ** The life of the process *)

Lemma handle_post f p :
  handle_request the_app (post f) p =
  match predict_placement f p with
  | (Ok body, p') => (Response200 body, p')
  | (Raise e, p') => (InternalServerError500 e, p')
  end.
Proof. reflexivity. Qed.

Section Lifecycle.

Variable env : environment.

Lemma inv_boot disk : inv env (boot disk).
Proof. exists 0%nat. repeat split. Qed.

Lemma loaded_same s s' :
  loads s' = loads s -> model (proc s') = model (proc s) ->
  loaded env s -> loaded env s'.
Proof. unfold loaded. intros -> ->. auto. Qed.

Lemma at_statement_loaded n k s :
  (1 <= n)%nat -> at_statement env n k s -> loaded env s.
Proof. intros Hn (_ & _ & H). destruct n; [lia | exact H]. Qed.

(** Past the last statement, the routes are registered. *)
Lemma at_statement_end n s :
  at_statement env n [] s ->
  (5 <= n)%nat /\ app s = Some the_app /\ loaded env s.
Proof.
  intros (Hk & Ha & H).
  do 5 (destruct n as [|n]; [discriminate Hk|]).
  split; [lia | split; [exact Ha | exact H]].
Qed.

Lemma at_statement_late n k s :
  (5 <= n)%nat -> at_statement env n k s ->
  k = [] /\ app s = Some the_app /\ loaded env s.
Proof.
  intros Hn (Hk & Ha & H).
  do 5 (destruct n as [|n]; [lia|]).
  split; [|split; [exact Ha | exact H]].
  rewrite Hk. destruct n; reflexivity.
Qed.

Lemma inv_exec c k s :
  ph s = Importing (c :: k) -> inv env s -> inv env (exec env c k s).
Proof.
  intros Hph H. unfold inv in H. rewrite Hph in H.
  destruct H as (n & Hk & Ha & H).
  destruct n as [|[|[|[|[|n]]]]]; cbn in Hk;
    try (inversion Hk; subst c k; clear Hk).
  - destruct H as (Hl & Hm & Hs). unfold exec, inv.
    destruct (artifact env) as [m|] eqn:Ea; cbn [ph loads]; [|lia].
    exists 1%nat. split; [reflexivity|]. split; [exact Ha|].
    split; cbn [loads proc set_model model]; [lia | eauto].
  - unfold exec, inv. cbn [ph]. exists 2%nat.
    split; [reflexivity|]. split; [reflexivity|].
    apply (loaded_same s); [reflexivity | reflexivity | exact H].
  - unfold exec, inv. rewrite Ha. cbn [registered ph]. exists 3%nat.
    split; [reflexivity|]. split; [reflexivity|].
    apply (loaded_same s); [reflexivity | reflexivity | exact H].
  - unfold exec, inv. rewrite Ha. cbn [registered ph]. exists 4%nat.
    split; [reflexivity|]. split; [reflexivity|].
    apply (loaded_same s); [reflexivity | reflexivity | exact H].
  - unfold exec, inv. rewrite Ha. cbn [registered].
    destruct (as_main env); cbn [ph with_phase].
    + exists 5%nat. split; [lia|]. split; [reflexivity|].
      split; [exact Ha | exact H].
    + exists 5%nat. split; [reflexivity|]. split; [exact Ha | exact H].
  - destruct n; discriminate Hk.
Qed.

Lemma inv_step s ev : inv env s -> inv env (step env s ev).
Proof.
  intros H. unfold step.
  destruct (ph s) as [[|c k]|k|] eqn:Hph; destruct ev; try exact H.
  - unfold inv in H. rewrite Hph in H. destruct H as (n & Hn).
    destruct (at_statement_end n s Hn) as (H5 & Ha & Hl).
    rewrite Ha.
    destruct (as_main env); unfold inv; cbn [ph with_phase loads].
    + apply Hl.
    + exists n. split; [exact H5 | exact Hn].
  - apply inv_exec; assumption.
  - unfold inv in H. rewrite Hph in H. destruct H as (n & H5 & Hn).
    destruct (at_statement_late n k s H5 Hn) as (_ & Ha & Hl).
    destruct Hn as (Hk & Ha' & _).
    destruct (app s) as [a|] eqn:Happ; [|discriminate Ha].
    pose proof (handle_request_model a r (proc s)) as Hmodel.
    destruct (handle_request a r (proc s)) as [resp p']. cbn [snd] in Hmodel.
    unfold inv. cbn [ph]. exists n. split; [exact H5|].
    split; [exact Hk|]. split; [exact Ha'|].
    destruct n as [|n]; [lia|].
    apply (loaded_same s); [reflexivity | exact Hmodel | exact Hl].
  - unfold inv in H. rewrite Hph in H. destruct H as (n & H5 & Hn).
    destruct (at_statement_late n k s H5 Hn) as (_ & _ & Hl).
    destruct (as_main env); unfold inv; cbn [ph with_phase loads].
    + exists n. exact Hn.
    + apply Hl.
Qed.

Lemma run_snoc evs ev s : run env (evs ++ [ev]) s = step env (run env evs s) ev.
Proof. unfold run. rewrite fold_left_app. reflexivity. Qed.

Lemma run_app evs1 evs2 s :
  run env (evs1 ++ evs2) s = run env evs2 (run env evs1 s).
Proof. unfold run. apply fold_left_app. Qed.

Lemma inv_run evs : forall s, inv env s -> inv env (run env evs s).
Proof.
  induction evs as [|ev evs IH]; intros s H; [exact H|].
  apply IH, inv_step, H.
Qed.

(** Every state the invariant allows has at most one load behind it,
    and has one as soon as something was served. *)
Lemma inv_loads s :
  inv env s -> (loads s <= 1)%nat /\ (served s <> [] -> loads s = 1%nat).
Proof.
  unfold inv. destruct (ph s).
  - intros ([|n] & _ & _ & H).
    + destruct H as (H1 & _ & H3). split; [lia|]. intros C. contradiction.
    + destruct H as [H1 _]. lia.
  - intros (n & H5 & Hn).
    destruct (at_statement_loaded n todo s) as [H1 _]; [lia | exact Hn | lia].
  - intros H. lia.
Qed.

(** A serving process has its model and its three rules. *)
Lemma inv_serving s k :
  inv env s -> ph s = Serving k -> app s = Some the_app /\ loaded env s.
Proof.
  unfold inv. intros H Hph. rewrite Hph in H. destruct H as (n & H5 & Hn).
  apply (at_statement_late n k s H5 Hn).
Qed.

(** A step keeps a model that is bound. *)
Lemma step_model s ev m :
  inv env s -> model (proc s) = Some m ->
  model (proc (step env s ev)) = Some m.
Proof.
  intros H Hm. unfold step.
  destruct (ph s) as [[|c k]|k|] eqn:Hph; destruct ev; try exact Hm.
  - destruct (as_main env); [|destruct (app s)]; exact Hm.
  - unfold inv in H. rewrite Hph in H. destruct H as (n & Hk & _ & H).
    destruct n as [|n]; [destruct H as (_ & Hn & _); congruence|].
    do 5 (destruct n as [|n]; [inversion Hk; subst c k; unfold exec;
           repeat match goal with
                  | |- context [match ?x with _ => _ end] => destruct x
                  end; exact Hm|]).
    destruct n; discriminate Hk.
  - destruct (app s) as [a|]; [|exact Hm].
    pose proof (handle_request_model a r (proc s)) as Hmodel.
    destruct (handle_request a r (proc s)) as [resp p']. cbn [snd] in Hmodel.
    cbn [proc]. congruence.
  - destruct (as_main env); exact Hm.
Qed.

Lemma run_model evs : forall s m,
  inv env s -> model (proc s) = Some m ->
  model (proc (run env evs s)) = Some m.
Proof.
  induction evs as [|ev evs IH]; intros s m H Hm; [exact Hm|].
  apply IH; [apply inv_step, H | apply step_model; assumption].
Qed.

(** A request is answered only by a serving process. *)
Lemma step_serves s r :
  served (step env s (Incoming r)) <> served s -> exists k, ph s = Serving k.
Proof.
  unfold step. destruct (ph s) as [[|c k]|k|]; try (intros H; now elim H).
  intros _. eauto.
Qed.

(** The number of loads never goes down. *)
Lemma step_loads s ev : (loads s <= loads (step env s ev))%nat.
Proof.
  unfold step.
  destruct (ph s) as [[|c k]|k|]; destruct ev; try lia.
  - destruct (as_main env); [|destruct (app s)]; cbn [with_phase loads]; lia.
  - unfold exec. destruct c; [destruct (artifact env)| |destruct (app s)|];
      try (destruct (as_main env); [destruct (app s)|]);
      cbn [with_phase loads]; lia.
  - destruct (app s); [|lia]. destruct (handle_request _ _ _).
    cbn [loads]. lia.
  - destruct (as_main env); cbn [with_phase loads]; lia.
Qed.

End Lifecycle.

(** ** The claims *)


(** C1. On the scenario form the view calls [predict] once, with
    [[170, 65, 55, 130, 110, 5500]] in the order carlength, carwidth,
    carheight, enginesize, horsepower, peakrpm, and answers the text of the
    prediction; on every form whose six fields are numbers the one call
    gets the six values in that order. *)
Theorem predict_called_once_in_field_order :
  (forall p m,
      model p = Some m ->
      predict_calls (snd (predict_placement scenario_form p))
      = predict_calls p ++ [[scenario_vector]]
      /\ forall x r, m [scenario_vector] = Ok (x :: r) ->
           fst (predict_placement scenario_form p) = Ok (str_float64 x))
  /\
  (forall form p m v1 v2 v3 v4 v5 v6,
      model p = Some m ->
      float (get form "carlength") = Ok v1 ->
      float (get form "carwidth") = Ok v2 ->
      float (get form "carheight") = Ok v3 ->
      float (get form "enginesize") = Ok v4 ->
      float (get form "horsepower") = Ok v5 ->
      float (get form "peakrpm") = Ok v6 ->
      predict_calls (snd (predict_placement form p))
      = predict_calls p ++ [[[v1; v2; v3; v4; v5; v6]]]).
Proof.
  assert (G : forall form p m v1 v2 v3 v4 v5 v6,
      model p = Some m ->
      float (get form "carlength") = Ok v1 ->
      float (get form "carwidth") = Ok v2 ->
      float (get form "carheight") = Ok v3 ->
      float (get form "enginesize") = Ok v4 ->
      float (get form "horsepower") = Ok v5 ->
      float (get form "peakrpm") = Ok v6 ->
      predict_calls (snd (predict_placement form p))
      = predict_calls p ++ [[[v1; v2; v3; v4; v5; v6]]]
      /\ forall x r, m [[v1; v2; v3; v4; v5; v6]] = Ok (x :: r) ->
           fst (predict_placement form p) = Ok (str_float64 x)).
  { intros form p m v1 v2 v3 v4 v5 v6 Hm H1 H2 H3 H4 H5 H6.
    rewrite (predict_placement_parsed form p v1 v2 v3 v4 v5 v6 H1 H2 H3 H4 H5 H6).
    rewrite Hm. split.
    - destruct (m _) as [[|x r]|e]; reflexivity.
    - intros x r ->. reflexivity. }
  split.
  - intros p m Hm.
    apply (G scenario_form p m); try assumption; vm_compute; reflexivity.
  - intros form p m v1 v2 v3 v4 v5 v6 Hm H1 H2 H3 H4 H5 H6.
    apply (G form p m v1 v2 v3 v4 v5 v6 Hm H1 H2 H3 H4 H5 H6).
Qed.

Lemma predict_called_once_in_field_order_witness :
  predict_calls (snd (predict_placement scenario_form (serving_with first_feature)))
  = [[scenario_vector]]
  /\ fst (predict_placement scenario_form (serving_with first_feature))
     = Ok "170.0".
Proof.
  destruct (proj1 predict_called_once_in_field_order
              (serving_with first_feature) first_feature eq_refl) as [H1 H2].
  split.
  - exact H1.
  - exact (H2 (float_of_Z 170) [] eq_refl).
Defined.



(** The six conversions succeed, or the view stops at the first one that
    fails. *)
Lemma predict_placement_reads_or_stops form p :
  (exists v1 v2 v3 v4 v5 v6,
      map (fun k => float (get form k)) field_names
      = map Ok [v1; v2; v3; v4; v5; v6])
  \/ (exists k e, In k field_names /\ float (get form k) = Raise e
                  /\ ParseError e /\ predict_placement form p = (Raise e, p)).
Proof.
  destruct (float_cases form "carlength") as [[v1 H1]|U];
    [|right; apply (predict_placement_unreadable form p "carlength");
      [simpl; tauto | exact U]].
  destruct (float_cases form "carwidth") as [[v2 H2]|U];
    [|right; apply (predict_placement_unreadable form p "carwidth");
      [simpl; tauto | exact U]].
  destruct (float_cases form "carheight") as [[v3 H3]|U];
    [|right; apply (predict_placement_unreadable form p "carheight");
      [simpl; tauto | exact U]].
  destruct (float_cases form "enginesize") as [[v4 H4]|U];
    [|right; apply (predict_placement_unreadable form p "enginesize");
      [simpl; tauto | exact U]].
  destruct (float_cases form "horsepower") as [[v5 H5]|U];
    [|right; apply (predict_placement_unreadable form p "horsepower");
      [simpl; tauto | exact U]].
  destruct (float_cases form "peakrpm") as [[v6 H6]|U];
    [|right; apply (predict_placement_unreadable form p "peakrpm");
      [simpl; tauto | exact U]].
  left. exists v1, v2, v3, v4, v5, v6.
  cbn [map field_names]. rewrite H1, H2, H3, H4, H5, H6. reflexivity.
Qed.

(** The view after six successful conversions, with the model bound. *)
Lemma predict_placement_read form p m v1 v2 v3 v4 v5 v6 :
  model p = Some m ->
  map (fun k => float (get form k)) field_names
  = map Ok [v1; v2; v3; v4; v5; v6] ->
  fst (predict_placement form p)
  = match m [[v1; v2; v3; v4; v5; v6]] with
    | Ok (x :: _) => Ok (str_float64 x)
    | Ok [] => Raise IndexError
    | Raise e => Raise e
    end.
Proof.
  intros Hm Hv. cbn [map field_names] in Hv.
  inversion Hv as [[H1 H2 H3 H4 H5 H6]].
  rewrite (predict_placement_parsed form p v1 v2 v3 v4 v5 v6 H1 H2 H3 H4 H5 H6).
  rewrite Hm. destruct (m _) as [[|x r]|e]; reflexivity.
Qed.

(** C3, as the claim states it, fails: the view has no handler of its
    own, so what the predictor raises comes out of the view although all
    six fields were read. *)
Lemma view_fails_with_all_fields_readable :
  ~ (forall form p e,
        model p <> None ->
        fst (predict_placement form p) = Raise e ->
        exists k, In k field_names /\ unreadable form k).
Proof.
  intros H.
  destruct (H [ ("carlength", "nan"); ("carwidth", "65"); ("carheight", "55");
                ("enginesize", "130"); ("horsepower", "110");
                ("peakrpm", "5500") ]
              (serving_with fussy) ValueError)
    as (k & Hk & Hu).
  - discriminate.
  - vm_compute. reflexivity.
  - apply float_unreadable in Hu. simpl in Hk.
    destruct Hk as [<-|[<-|[<-|[<-|[<-|[<-|[]]]]]]];
      destruct Hu as [Hu|Hu]; vm_compute in Hu; discriminate Hu.
Qed.

(** C3, amended. A form with one of the six fields missing, or with a
    field that is no number, makes the view fail with a parse error: the
    answer is a 500 and no prediction, and the process goes on serving as
    it was.  With the model bound the view fails in three ways and no
    other: on a field it cannot read, on an exception of [predict], which
    it does not catch, and on an empty result, where [result[0]] raises
    [IndexError]. *)
Theorem view_fails_on_unreadable_field_or_failed_prediction form p :
  (forall k, In k field_names -> unreadable form k ->
     exists e, ParseError e
       /\ predict_placement form p = (Raise e, p)
       /\ handle_request the_app (post form) p = (InternalServerError500 e, p))
  /\
  (forall env disk evs k,
     let s := run env evs (boot disk) in
     let s' := step env s (Incoming (post form)) in
     is_serving s = true -> In k field_names -> unreadable form k ->
     ph s' = ph s /\ proc s' = proc s
     /\ exists e, ParseError e
          /\ served s' = served s ++ [(post form, InternalServerError500 e)])
  /\
  (forall m e, model p = Some m ->
     fst (predict_placement form p) = Raise e ->
     (ParseError e
      /\ exists k, In k field_names /\ unreadable form k
                   /\ float (get form k) = Raise e)
     \/ (exists v1 v2 v3 v4 v5 v6,
            map (fun k => float (get form k)) field_names
            = map Ok [v1; v2; v3; v4; v5; v6]
            /\ (m [[v1; v2; v3; v4; v5; v6]] = Raise e
                \/ (m [[v1; v2; v3; v4; v5; v6]] = Ok [] /\ e = IndexError))))
  /\
  (forall m v1 v2 v3 v4 v5 v6, model p = Some m ->
     map (fun k => float (get form k)) field_names
     = map Ok [v1; v2; v3; v4; v5; v6] ->
     (forall e, m [[v1; v2; v3; v4; v5; v6]] = Raise e ->
                fst (predict_placement form p) = Raise e)
     /\ (m [[v1; v2; v3; v4; v5; v6]] = Ok [] ->
         fst (predict_placement form p) = Raise IndexError)
     /\ (forall x r, m [[v1; v2; v3; v4; v5; v6]] = Ok (x :: r) ->
                     fst (predict_placement form p) = Ok (str_float64 x))).
Proof.
  assert (First : forall q k, In k field_names -> unreadable form k ->
     exists e, ParseError e
       /\ predict_placement form q = (Raise e, q)
       /\ handle_request the_app (post form) q = (InternalServerError500 e, q)).
  { intros q k Hk Hu.
    destruct (predict_placement_unreadable form q k Hk Hu)
      as (k' & e & _ & _ & He & E).
    exists e. rewrite handle_post, E. auto. }
  split; [apply First|]. split; [|split].
  - intros env disk evs k s s' Hs Hk Hu.
    assert (Hinv : inv env s) by apply inv_run, inv_boot.
    unfold is_serving in Hs. destruct (ph s) as [|k0|] eqn:Hph; try discriminate Hs.
    destruct (inv_serving env s k0 Hinv Hph) as [Ha _].
    destruct (First (proc s) k Hk Hu) as (e & He & _ & E).
    unfold s', step. rewrite Hph, Ha, E. cbn [ph proc served].
    split; [reflexivity|]. split; [reflexivity|]. exists e. auto.
  - intros m e Hm Hr.
    destruct (predict_placement_reads_or_stops form p)
      as [(v1 & v2 & v3 & v4 & v5 & v6 & Hv) | (k & e' & Hk & Hf & He & E)].
    + right. exists v1, v2, v3, v4, v5, v6. split; [exact Hv|].
      rewrite (predict_placement_read form p m v1 v2 v3 v4 v5 v6 Hm Hv) in Hr.
      destruct (m [[v1; v2; v3; v4; v5; v6]]) as [[|x r]|e0].
      * inversion Hr. auto.
      * discriminate Hr.
      * inversion Hr. auto.
    + left. rewrite E in Hr. cbn [fst] in Hr. inversion Hr; subst e'.
      split; [exact He|]. exists k. split; [exact Hk|]. split; [|exact Hf].
      apply float_unreadable. destruct He as [-> | ->]; auto.
  - intros m v1 v2 v3 v4 v5 v6 Hm Hv.
    rewrite (predict_placement_read form p m v1 v2 v3 v4 v5 v6 Hm Hv).
    split; [|split].
    + intros e ->. reflexivity.
    + intros ->. reflexivity.
    + intros x r ->. reflexivity.
Qed.

Lemma view_fails_on_unreadable_field_or_failed_prediction_witness :
  (exists e, ParseError e
     /\ predict_placement without_horsepower (serving_with first_feature)
        = (Raise e, serving_with first_feature)
     /\ handle_request the_app (post without_horsepower)
          (serving_with first_feature)
        = (InternalServerError500 e, serving_with first_feature))
  /\ (exists e, ParseError e
     /\ predict_placement with_bad_carwidth (serving_with first_feature)
        = (Raise e, serving_with first_feature)
     /\ handle_request the_app (post with_bad_carwidth)
          (serving_with first_feature)
        = (InternalServerError500 e, serving_with first_feature))
  /\ (let env := {| artifact := Some first_feature; as_main := true |} in
      let s := run env [Next; Next; Next; Next; Next] (boot []) in
      let s' := step env s (Incoming (post without_horsepower)) in
      ph s' = ph s /\ proc s' = proc s
      /\ exists e, ParseError e
           /\ served s' = served s
                          ++ [(post without_horsepower, InternalServerError500 e)])
  /\ ((ParseError ValueError
       /\ exists k, In k field_names /\ unreadable with_bad_carwidth k
                    /\ float (get with_bad_carwidth k) = Raise ValueError)
      \/ (exists v1 v2 v3 v4 v5 v6,
             map (fun k => float (get with_bad_carwidth k)) field_names
             = map Ok [v1; v2; v3; v4; v5; v6]
             /\ (first_feature [[v1; v2; v3; v4; v5; v6]] = Raise ValueError
                 \/ (first_feature [[v1; v2; v3; v4; v5; v6]] = Ok []
                     /\ ValueError = IndexError))))
  /\ fst (predict_placement odd_form (serving_with fussy)) = Raise ValueError.
Proof.
  split; [|split; [|split; [|split]]].
  - apply (proj1 (view_fails_on_unreadable_field_or_failed_prediction
                    without_horsepower (serving_with first_feature))
             "horsepower").
    + simpl. tauto.
    + left. reflexivity.
  - apply (proj1 (view_fails_on_unreadable_field_or_failed_prediction
                    with_bad_carwidth (serving_with first_feature))
             "carwidth").
    + simpl. tauto.
    + right. exists "abc". split; vm_compute; reflexivity.
  - apply (proj1 (proj2 (view_fails_on_unreadable_field_or_failed_prediction
                           without_horsepower (serving_with first_feature)))
             {| artifact := Some first_feature; as_main := true |} []
             [Next; Next; Next; Next; Next] "horsepower").
    + reflexivity.
    + simpl. tauto.
    + left. reflexivity.
  - apply (proj1 (proj2 (proj2
             (view_fails_on_unreadable_field_or_failed_prediction
                with_bad_carwidth (serving_with first_feature))))
             first_feature ValueError eq_refl).
    vm_compute. reflexivity.
  - destruct (proj2 (proj2 (proj2
               (view_fails_on_unreadable_field_or_failed_prediction
                  odd_form (serving_with fussy))))
               fussy S754_nan (S754_infinity false) (S754_infinity true)
               (float_of_Z (-130)) (S754_zero true) (S754_infinity false)
               eq_refl) as [H _].
    + vm_compute. reflexivity.
    + apply H. vm_compute. reflexivity.
Defined.

(** The answer of the view is a function of the form and of the predictor;
    what was printed or called before does not enter it. *)
Lemma predict_placement_answer form p1 p2 :
  model p1 = model p2 ->
  fst (predict_placement form p1) = fst (predict_placement form p2).
Proof.
  intros Hm.
  unfold predict_placement, bind, lift, print, global_model, call_predict, ret.
  repeat match goal with
         | |- context [float (get form ?k)] =>
             destruct (float (get form k)); [|reflexivity]
         end.
  cbn [model]. rewrite Hm. destruct (model p2) as [m|]; [|reflexivity].
  destruct (reshape _ 1 6) as [X|e]; [|reflexivity].
  destruct (m X) as [r|e]; [|reflexivity].
  destruct (getitem r 0); reflexivity.
Qed.

(** C4. With the predictor fixed, the view gives the same answer to the
    same form, whatever the process did before, and so also when it is
    called again. *)
Theorem same_form_same_answer form p1 p2 :
  model p1 = model p2 ->
  fst (predict_placement form p1) = fst (predict_placement form p2)
  /\ fst (predict_placement form (snd (predict_placement form p1)))
     = fst (predict_placement form p1).
Proof.
  intros Hm. split.
  - apply predict_placement_answer, Hm.
  - apply predict_placement_answer, keeps_model_predict_placement.
Qed.

Lemma same_form_same_answer_witness :
  fst (predict_placement scenario_form (serving_with first_feature))
  = fst (predict_placement scenario_form
           (snd (predict_placement with_bad_carwidth
                   (snd (predict_placement scenario_form
                           (serving_with first_feature))))))
  /\ fst (predict_placement scenario_form
            (snd (predict_placement scenario_form (serving_with first_feature))))
     = fst (predict_placement scenario_form (serving_with first_feature)).
Proof.
  apply (same_form_same_answer scenario_form). reflexivity.
Defined.

(** C5. The body of a successful answer is [str] of the first element of
    what [predict] returned, and nothing else. *)
Theorem answer_is_str_of_prediction form p body :
  fst (predict_placement form p) = Ok body ->
  exists m v1 v2 v3 v4 v5 v6 x r,
    model p = Some m
    /\ map (fun k => float (get form k)) field_names
       = map Ok [v1; v2; v3; v4; v5; v6]
    /\ m [[v1; v2; v3; v4; v5; v6]] = Ok (x :: r)
    /\ body = str_float64 x
    /\ handle_request the_app (post form) p
       = (Response200 (str_float64 x),
          logged p [v1; v2; v3; v4; v5; v6] (Some (x :: r))).
Proof.
  intros Hb.
  assert (Hread : forall k, In k field_names ->
                            exists x, float (get form k) = Ok x).
  { intros k Hk. destruct (float_cases form k) as [H|U]; [exact H|].
    destruct (predict_placement_unreadable form p k Hk U)
      as (_ & e & _ & _ & _ & E).
    rewrite E in Hb. discriminate Hb. }
  destruct (Hread "carlength") as [v1 H1]; [simpl; tauto|].
  destruct (Hread "carwidth") as [v2 H2]; [simpl; tauto|].
  destruct (Hread "carheight") as [v3 H3]; [simpl; tauto|].
  destruct (Hread "enginesize") as [v4 H4]; [simpl; tauto|].
  destruct (Hread "horsepower") as [v5 H5]; [simpl; tauto|].
  destruct (Hread "peakrpm") as [v6 H6]; [simpl; tauto|].
  pose proof (predict_placement_parsed form p v1 v2 v3 v4 v5 v6
                H1 H2 H3 H4 H5 H6) as E.
  cbv zeta in E. rewrite handle_post. rewrite E in Hb |- *.
  destruct (model p) as [m|]; [|discriminate Hb].
  destruct (m [[v1; v2; v3; v4; v5; v6]]) as [[|x r]|e] eqn:Hx;
    try discriminate Hb.
  cbn [fst] in Hb. inversion Hb; subst body.
  exists m, v1, v2, v3, v4, v5, v6, x, r.
  cbn [map field_names]. rewrite H1, H2, H3, H4, H5, H6. auto.
Qed.

Lemma answer_is_str_of_prediction_witness :
  exists m v1 v2 v3 v4 v5 v6 x r,
    model (serving_with first_feature) = Some m
    /\ map (fun k => float (get scenario_form k)) field_names
       = map Ok [v1; v2; v3; v4; v5; v6]
    /\ m [[v1; v2; v3; v4; v5; v6]] = Ok (x :: r)
    /\ "170.0" = str_float64 x
    /\ handle_request the_app (post scenario_form) (serving_with first_feature)
       = (Response200 (str_float64 x),
          logged (serving_with first_feature)
            [v1; v2; v3; v4; v5; v6] (Some (x :: r))).
Proof.
  apply (answer_is_str_of_prediction scenario_form
           (serving_with first_feature) "170.0").
  vm_compute. reflexivity.
Defined.

(** C6. No request changes the predictor: after any request, to any
    path and with any outcome, [model] is what it was; and once bound it
    stays the same object for the rest of the run. *)
Theorem predictor_is_never_mutated :
  (forall a r p, model (snd (handle_request a r p)) = model p)
  /\ (forall form p, model (snd (predict_placement form p)) = model p)
  /\ (forall p, model (snd (index p)) = model p)
  /\ (forall env disk evs1 evs2 m,
        model (proc (run env evs1 (boot disk))) = Some m ->
        model (proc (run env (evs1 ++ evs2) (boot disk))) = Some m).
Proof.
  split; [|split; [|split]].
  - apply handle_request_model.
  - intros form p. apply keeps_model_predict_placement.
  - intros p. apply keeps_model_render_template.
  - intros env disk evs1 evs2 m Hm.
    rewrite run_app. apply run_model; [|exact Hm].
    apply inv_run, inv_boot.
Qed.

Lemma predictor_is_never_mutated_witness :
  model (proc (run {| artifact := Some first_feature; as_main := true |}
                 ([Next; Next; Next; Next; Next]
                  ++ [Incoming (post scenario_form);
                      Incoming (post with_bad_carwidth); Stop])
                 (boot [])))
  = Some first_feature.
Proof.
  apply (proj2 (proj2 (proj2 predictor_is_never_mutated))).
  reflexivity.
Defined.

(** C7. The artifact is unpickled once, when the module starts, and
    before any request: in every run, [pickle.load] was called at most
    once, a request is answered only when [model] holds the artifact that
    one call returned, and whatever was served was served after it. *)
Theorem predictor_loaded_once_before_serving env disk evs :
  let s := run env evs (boot disk) in
  (loads s <= 1)%nat
  /\ (served s <> [] -> loads s = 1%nat)
  /\ (forall r, served (step env s (Incoming r)) <> served s ->
        loads s = 1%nat
        /\ exists m, artifact env = Some m /\ model (proc s) = Some m)
  /\ (forall ev, (loads s = 1)%nat -> loads (step env s ev) = 1%nat).
Proof.
  intros s.
  assert (Hinv : inv env s) by apply inv_run, inv_boot.
  destruct (inv_loads env s Hinv) as [H1 H2].
  split; [exact H1|]. split; [exact H2|]. split.
  - intros r Hr. destruct (step_serves env s r Hr) as [k Hk].
    apply (inv_serving env s k Hinv Hk).
  - intros ev Hl.
    destruct (inv_loads env _ (inv_step env s ev Hinv)) as [H3 _].
    pose proof (step_loads env s ev). lia.
Qed.

Lemma predictor_loaded_once_before_serving_witness :
  let env := {| artifact := Some first_feature; as_main := true |} in
  let s := run env [Next; Next; Next; Next; Next; Incoming (post scenario_form)]
             (boot []) in
  loads s = 1%nat
  /\ (loads s = 1%nat
      /\ exists m, artifact env = Some m /\ model (proc s) = Some m)
  /\ loads (step env s Stop) = 1%nat.
Proof.
  intros env s.
  destruct (predictor_loaded_once_before_serving env []
              [Next; Next; Next; Next; Next; Incoming (post scenario_form)])
    as (_ & H2 & H3 & H4).
  split; [|split].
  - apply H2. vm_compute. discriminate.
  - apply (H3 (post scenario_form)). vm_compute. intros E.
    apply (f_equal (@List.length _)) in E. discriminate E.
  - apply H4. reflexivity.
Defined.

(** C8. When one of the six fields is missing or is no number, the view
    fails before it reaches [predict]: no call is made, nothing is printed,
    there is no prediction, and the process is as it was. *)
Theorem unreadable_field_never_reaches_predictor form p k :
  In k field_names -> unreadable form k ->
  snd (predict_placement form p) = p
  /\ predict_calls (snd (predict_placement form p)) = predict_calls p
  /\ stdout (snd (predict_placement form p)) = stdout p
  /\ (forall body, fst (predict_placement form p) <> Ok body)
  /\ snd (handle_request the_app (post form) p) = p.
Proof.
  intros Hk Hu.
  destruct (predict_placement_unreadable form p k Hk Hu)
    as (_ & e & _ & _ & _ & E).
  rewrite handle_post, E. cbn [fst snd].
  repeat split; try reflexivity. intros body H. discriminate H.
Qed.

Lemma unreadable_field_never_reaches_predictor_witness :
  let p := snd (predict_placement scenario_form (serving_with first_feature)) in
  snd (predict_placement with_bad_carwidth p) = p
  /\ predict_calls (snd (predict_placement with_bad_carwidth p))
     = predict_calls p
  /\ stdout (snd (predict_placement with_bad_carwidth p)) = stdout p
  /\ (forall body, fst (predict_placement with_bad_carwidth p) <> Ok body)
  /\ snd (handle_request the_app (post with_bad_carwidth) p) = p.
Proof.
  intros p.
  apply (unreadable_field_never_reaches_predictor with_bad_carwidth p "carwidth").
  - simpl. tauto.
  - right. exists "abc". split; vm_compute; reflexivity.
Defined.

(** C9. Fields other than the six are ignored: two forms that agree on
    the six named fields get the same answer and leave the same process. *)
Theorem extra_fields_are_ignored form1 form2 p :
  (forall k, In k field_names -> get form1 k = get form2 k) ->
  predict_placement form1 p = predict_placement form2 p
  /\ handle_request the_app (post form1) p
     = handle_request the_app (post form2) p.
Proof.
  intros H.
  assert (E : predict_placement form1 p = predict_placement form2 p).
  { unfold predict_placement.
    rewrite (H "carlength"), (H "carwidth"), (H "carheight"),
      (H "enginesize"), (H "horsepower"), (H "peakrpm");
      [reflexivity | simpl; tauto ..]. }
  split; [exact E|]. rewrite !handle_post, E. reflexivity.
Qed.

Lemma extra_fields_are_ignored_witness :
  predict_placement with_extra_fields (serving_with first_feature)
  = predict_placement scenario_form (serving_with first_feature)
  /\ handle_request the_app (post with_extra_fields) (serving_with first_feature)
     = handle_request the_app (post scenario_form) (serving_with first_feature).
Proof.
  apply (extra_fields_are_ignored with_extra_fields scenario_form).
  intros k Hk. simpl in Hk.
  destruct Hk as [<-|[<-|[<-|[<-|[<-|[<-|[]]]]]]]; reflexivity.
Defined.

(** C10. [float] takes ["nan"], ["inf"], ["-inf"] and negative numbers,
    and the view hands what it read to [predict] without a further check:
    the predictor is called with NaN, infinite and negative components, and
    with whatever six values the fields read as. *)
Theorem non_finite_and_negative_values_reach_predictor :
  (float_of_string "nan" = Some S754_nan
   /\ float_of_string "inf" = Some (S754_infinity false)
   /\ float_of_string "-inf" = Some (S754_infinity true)
   /\ float_of_string "-130" = Some (float_of_Z (-130))
   /\ float_of_Z (-130) = SFopp (float_of_Z 130))
  /\ (forall p m,
        model p = Some m ->
        predict_calls (snd (predict_placement odd_form p))
        = predict_calls p ++ [[odd_vector]])
  /\ (forall form p m v1 v2 v3 v4 v5 v6,
        model p = Some m ->
        map (fun k => float (get form k)) field_names
        = map Ok [v1; v2; v3; v4; v5; v6] ->
        predict_calls (snd (predict_placement form p))
        = predict_calls p ++ [[[v1; v2; v3; v4; v5; v6]]]
        /\ fst (predict_placement form p)
           = match m [[v1; v2; v3; v4; v5; v6]] with
             | Ok (x :: _) => Ok (str_float64 x)
             | Ok [] => Raise IndexError
             | Raise e => Raise e
             end).
Proof.
  assert (G : forall form p m v1 v2 v3 v4 v5 v6,
        model p = Some m ->
        map (fun k => float (get form k)) field_names
        = map Ok [v1; v2; v3; v4; v5; v6] ->
        predict_calls (snd (predict_placement form p))
        = predict_calls p ++ [[[v1; v2; v3; v4; v5; v6]]]
        /\ fst (predict_placement form p)
           = match m [[v1; v2; v3; v4; v5; v6]] with
             | Ok (x :: _) => Ok (str_float64 x)
             | Ok [] => Raise IndexError
             | Raise e => Raise e
             end).
  { intros form p m v1 v2 v3 v4 v5 v6 Hm Hv.
    cbn [map field_names] in Hv.
    inversion Hv as [[H1 H2 H3 H4 H5 H6]].
    rewrite (predict_placement_parsed form p v1 v2 v3 v4 v5 v6 H1 H2 H3 H4 H5 H6).
    rewrite Hm. destruct (m _) as [[|x r]|e]; split; reflexivity. }
  split; [|split].
  - repeat split; vm_compute; reflexivity.
  - intros p m Hm.
    apply (G odd_form p m S754_nan (S754_infinity false) (S754_infinity true)
             (float_of_Z (-130)) (S754_zero true) (S754_infinity false) Hm).
    vm_compute. reflexivity.
  - exact G.
Qed.

Lemma non_finite_and_negative_values_reach_predictor_witness :
  predict_calls (snd (predict_placement odd_form (serving_with fussy)))
  = [[odd_vector]]
  /\ fst (predict_placement odd_form (serving_with first_feature)) = Ok "nan".
Proof.
  split.
  - apply (proj1 (proj2 non_finite_and_negative_values_reach_predictor)
             (serving_with fussy) fussy eq_refl).
  - destruct (proj2 (proj2 non_finite_and_negative_values_reach_predictor)
                odd_form (serving_with first_feature) first_feature
                S754_nan (S754_infinity false) (S754_infinity true)
                (float_of_Z (-130)) (S754_zero true) (S754_infinity false)
                eq_refl) as [_ H].
    + vm_compute. reflexivity.
    + rewrite H. vm_compute. reflexivity.
Defined.

(** ** Further properties of the view *)

(** The six conversions all succeed, or the view stops at one of them. *)
Lemma predict_placement_cases form p :
  (exists v1 v2 v3 v4 v5 v6,
      float (get form "carlength") = Ok v1
      /\ float (get form "carwidth") = Ok v2
      /\ float (get form "carheight") = Ok v3
      /\ float (get form "enginesize") = Ok v4
      /\ float (get form "horsepower") = Ok v5
      /\ float (get form "peakrpm") = Ok v6)
  \/ (exists e, predict_placement form p = (Raise e, p)).
Proof.
  assert (Stop : forall k, In k field_names -> unreadable form k ->
                           exists e, predict_placement form p = (Raise e, p)).
  { intros k Hk U.
    destruct (predict_placement_unreadable form p k Hk U)
      as (_ & e & _ & _ & _ & E).
    exists e. exact E. }
  destruct (float_cases form "carlength") as [[v1 H1]|U];
    [|right; apply (Stop "carlength"); [simpl; tauto | exact U]].
  destruct (float_cases form "carwidth") as [[v2 H2]|U];
    [|right; apply (Stop "carwidth"); [simpl; tauto | exact U]].
  destruct (float_cases form "carheight") as [[v3 H3]|U];
    [|right; apply (Stop "carheight"); [simpl; tauto | exact U]].
  destruct (float_cases form "enginesize") as [[v4 H4]|U];
    [|right; apply (Stop "enginesize"); [simpl; tauto | exact U]].
  destruct (float_cases form "horsepower") as [[v5 H5]|U];
    [|right; apply (Stop "horsepower"); [simpl; tauto | exact U]].
  destruct (float_cases form "peakrpm") as [[v6 H6]|U];
    [|right; apply (Stop "peakrpm"); [simpl; tauto | exact U]].
  left. exists v1, v2, v3, v4, v5, v6. auto 6.
Qed.

Lemma extends_refl p : extends p p [] [].
Proof. unfold extends. rewrite !app_nil_r. auto. Qed.

Lemma one_row_of_six_intro v1 v2 v3 v4 v5 v6 :
  one_row_of_six [[v1; v2; v3; v4; v5; v6]].
Proof. eexists. split; reflexivity. Qed.

(** What the view does to the process: at most two lines, at most one
    call, and that call on one row of six. *)
Ltac effects_done :=
  repeat split; cbn [List.length]; try lia;
  try (repeat constructor; assumption); try (symmetry; assumption); auto.

Lemma predict_placement_effects form p :
  exists lines calls,
    extends p (snd (predict_placement form p)) lines calls
    /\ (List.length lines <= 2)%nat
    /\ (List.length calls <= 1)%nat
    /\ Forall one_row_of_six calls.
Proof.
  destruct (predict_placement_cases form p)
    as [(v1 & v2 & v3 & v4 & v5 & v6 & H1 & H2 & H3 & H4 & H5 & H6) | [e E]].
  - rewrite (predict_placement_parsed form p v1 v2 v3 v4 v5 v6
               H1 H2 H3 H4 H5 H6).
    pose proof (one_row_of_six_intro v1 v2 v3 v4 v5 v6) as Hrow.
    destruct (model p) as [m|] eqn:Em.
    + destruct (m [[v1; v2; v3; v4; v5; v6]]) as [[|x r]|e]; cbn [snd].
      * exists [InputData [v1; v2; v3; v4; v5; v6]; Prediction []],
               [[[v1; v2; v3; v4; v5; v6]]].
        unfold extends, logged; cbn [model templates stdout predict_calls].
        rewrite <- app_assoc. effects_done.
      * exists [InputData [v1; v2; v3; v4; v5; v6]; Prediction (x :: r)],
               [[[v1; v2; v3; v4; v5; v6]]].
        unfold extends, logged; cbn [model templates stdout predict_calls].
        rewrite <- app_assoc. effects_done.
      * exists [InputData [v1; v2; v3; v4; v5; v6]],
               [[[v1; v2; v3; v4; v5; v6]]].
        unfold extends, logged; cbn [model templates stdout predict_calls].
        rewrite app_nil_r. effects_done.
    + cbn [snd]. exists [InputData [v1; v2; v3; v4; v5; v6]], [].
      unfold extends; cbn [model templates stdout predict_calls].
      rewrite app_nil_r. effects_done.
  - rewrite E. cbn [snd]. exists [], [].
    split; [apply extends_refl|]. effects_done.
Qed.

(** A successful answer is [str] of a double. *)
Lemma predict_placement_body form p body :
  fst (predict_placement form p) = Ok body -> exists x, body = str_float64 x.
Proof.
  intros Hb.
  destruct (predict_placement_cases form p)
    as [(v1 & v2 & v3 & v4 & v5 & v6 & H1 & H2 & H3 & H4 & H5 & H6) | [e E]].
  - rewrite (predict_placement_parsed form p v1 v2 v3 v4 v5 v6
               H1 H2 H3 H4 H5 H6) in Hb.
    destruct (model p) as [m|]; [|discriminate Hb].
    destruct (m [[v1; v2; v3; v4; v5; v6]]) as [[|x r]|e];
      try discriminate Hb.
    cbn [fst] in Hb. inversion Hb. eauto.
  - rewrite E in Hb. discriminate Hb.
Qed.

(** The view reads the form through the six lookups only. *)
Lemma predict_placement_lookups form1 form2 p :
  (forall k, In k field_names -> get form1 k = get form2 k) ->
  predict_placement form1 p = predict_placement form2 p.
Proof.
  intros H. unfold predict_placement.
  rewrite (H "carlength"), (H "carwidth"), (H "carheight"),
    (H "enginesize"), (H "horsepower"), (H "peakrpm");
    [reflexivity | simpl; tauto ..].
Qed.

Lemma float_exception_of form k :
  unreadable form k -> float (get form k) = Raise (exception_of form k).
Proof.
  unfold unreadable, exception_of, float.
  intros [-> | (s & -> & ->)]; reflexivity.
Qed.

(** X1. The conversions run in the order of lines 15 to 20 and the first
    one that fails decides: when the fields before [k] are readable and
    [k] is not, the view raises [TypeError] if [k] is missing and
    [ValueError] if it is there but is no number, whatever the later
    fields hold, and the process is as it was. *)
Theorem first_unreadable_field_decides form p before k after :
  field_names = before ++ k :: after ->
  Forall (readable form) before ->
  unreadable form k ->
  predict_placement form p = (Raise (exception_of form k), p)
  /\ handle_request the_app (post form) p
     = (InternalServerError500 (exception_of form k), p).
Proof.
  intros Hsplit Hbefore Hk.
  assert (E : predict_placement form p = (Raise (exception_of form k), p)).
  { pose proof (float_exception_of form k Hk) as Hf.
    unfold field_names in Hsplit.
    unfold predict_placement, bind, lift.
    repeat match type of Hsplit with
    | _ = [] ++ _ :: _ =>
        cbn [List.app] in Hsplit; inversion Hsplit; subst k;
        rewrite Hf; reflexivity
    | _ = (_ :: _) ++ _ :: _ =>
        let x := fresh "x" in
        let Hx := fresh "Hx" in
        cbn [List.app] in Hsplit; inversion Hsplit; subst;
        inversion Hbefore as [|? ? [x Hx] Hbefore']; subst;
        rewrite Hx; clear Hbefore; rename Hbefore' into Hbefore;
        match goal with H : ?l = _ ++ _ :: _ |- _ => clear Hsplit; rename H into Hsplit end;
        destruct before as [|? before]
    | _ = ?b ++ _ :: _ => destruct b as [|? before]
    end;
    try (destruct before; discriminate Hsplit); try discriminate Hsplit. }
  split; [exact E|]. rewrite handle_post, E. reflexivity.
Qed.

Lemma first_unreadable_field_decides_witness :
  (predict_placement [("carwidth", "abc")] (serving_with first_feature)
   = (Raise (exception_of [("carwidth", "abc")] "carlength"),
      serving_with first_feature)
   /\ handle_request the_app (post [("carwidth", "abc")])
        (serving_with first_feature)
      = (InternalServerError500 (exception_of [("carwidth", "abc")] "carlength"),
         serving_with first_feature))
  /\ exception_of [("carwidth", "abc")] "carlength" = TypeError
  /\ fst (predict_placement with_bad_carwidth (serving_with first_feature))
     = Raise ValueError.
Proof.
  split; [|split; [reflexivity|]].
  - apply (first_unreadable_field_decides [("carwidth", "abc")]
             (serving_with first_feature) [] "carlength"
             ["carwidth"; "carheight"; "enginesize"; "horsepower"; "peakrpm"]).
    + reflexivity.
    + constructor.
    + left. reflexivity.
  - destruct (first_unreadable_field_decides with_bad_carwidth
                (serving_with first_feature) ["carlength"] "carwidth"
                ["carheight"; "enginesize"; "horsepower"; "peakrpm"])
      as [H _].
    + reflexivity.
    + constructor; [|constructor]. eexists. vm_compute. reflexivity.
    + right. exists "abc". split; vm_compute; reflexivity.
    + rewrite H. reflexivity.
Defined.

(** X2. The diagnostic log of a request whose six fields are numbers:
    the input line is printed before [predict] is called and the
    prediction line only after it returned, so a call that raises leaves
    the input line alone in the log. *)
Theorem diagnostic_log_of_a_request form p m v1 v2 v3 v4 v5 v6 :
  model p = Some m ->
  map (fun k => float (get form k)) field_names
  = map Ok [v1; v2; v3; v4; v5; v6] ->
  let v := [v1; v2; v3; v4; v5; v6] in
  stdout (snd (predict_placement form p))
  = stdout p ++ InputData v
                :: match m [v] with
                   | Ok r => [Prediction r]
                   | Raise _ => []
                   end.
Proof.
  intros Hm Hv v. cbn [map field_names] in Hv.
  inversion Hv as [[H1 H2 H3 H4 H5 H6]].
  rewrite (predict_placement_parsed form p v1 v2 v3 v4 v5 v6 H1 H2 H3 H4 H5 H6).
  rewrite Hm. fold v.
  destruct (m [v]) as [[|x r]|e]; cbn [snd logged stdout];
    rewrite <- app_assoc; reflexivity.
Qed.

Lemma diagnostic_log_of_a_request_witness :
  stdout (snd (predict_placement scenario_form (serving_with first_feature)))
  = [InputData scenario_vector; Prediction [float_of_Z 170]]
  /\ stdout (snd (predict_placement odd_form (serving_with fussy)))
     = [InputData odd_vector].
Proof.
  split.
  - apply (diagnostic_log_of_a_request scenario_form
             (serving_with first_feature) first_feature
             (float_of_Z 170) (float_of_Z 65) (float_of_Z 55)
             (float_of_Z 130) (float_of_Z 110) (float_of_Z 5500) eq_refl).
    vm_compute. reflexivity.
  - apply (diagnostic_log_of_a_request odd_form (serving_with fussy) fussy
             S754_nan (S754_infinity false) (S754_infinity true)
             (float_of_Z (-130)) (S754_zero true) (S754_infinity false)
             eq_refl).
    vm_compute. reflexivity.
Defined.

(** *** The form as a multi-dictionary *)

Lemma get_app form extra k :
  get (form ++ extra) k
  = match get form k with
    | Some v => Some v
    | None => get extra k
    end.
Proof.
  induction form as [|[k0 v0] form IH]; cbn [get List.app]; [reflexivity|].
  destruct (String.eqb k0 k); [reflexivity | exact IH].
Qed.

Lemma get_not_in form k : ~ In k (map fst form) -> get form k = None.
Proof.
  induction form as [|[k0 v0] form IH]; cbn [get map fst In]; [reflexivity|].
  intros H. destruct (String.eqb_spec k0 k) as [E|_]; [tauto|].
  apply IH. tauto.
Qed.

Lemma get_Permutation form form' k :
  NoDup (map fst form) -> Permutation form form' ->
  get form k = get form' k.
Proof.
  intros Hnd Hp. induction Hp as [|[k0 v0] l l' Hp IH
                                  |[k1 v1] [k2 v2] l|l l' l'' Hp1 IH1 Hp2 IH2].
  - reflexivity.
  - cbn [get]. cbn [map fst] in Hnd. inversion Hnd; subst.
    rewrite IH by assumption. reflexivity.
  - cbn [get]. cbn [map fst] in Hnd.
    inversion Hnd as [|? ? Hn _]; subst.
    destruct (String.eqb_spec k2 k) as [E2|_];
      destruct (String.eqb_spec k1 k) as [E1|_]; try reflexivity.
    exfalso. apply Hn. left. congruence.
  - rewrite IH1 by assumption. apply IH2.
    apply (Permutation_NoDup (Permutation_map fst Hp1) Hnd).
Qed.

(** X3. The order in which the browser sends the fields does not matter:
    two forms with the same pairs in another order, no name twice, get the
    same answer, and the vector goes to [predict] in the order of the
    names in line 24. *)
Theorem field_order_in_the_form_is_irrelevant form form' p :
  NoDup (map fst form) ->
  Permutation form form' ->
  predict_placement form p = predict_placement form' p.
Proof.
  intros Hnd Hp. apply predict_placement_lookups.
  intros k _. apply get_Permutation; assumption.
Qed.

Lemma field_order_in_the_form_is_irrelevant_witness :
  predict_placement scenario_form (serving_with first_feature)
  = predict_placement shuffled_form (serving_with first_feature).
Proof.
  apply field_order_in_the_form_is_irrelevant.
  - cbn [map fst scenario_form].
    repeat (constructor;
            [cbn [In]; intros H;
             repeat (destruct H as [H|H]; [discriminate H|]); exact H|]).
    constructor.
  - unfold scenario_form, shuffled_form.
    apply NoDup_Permutation_bis.
    + repeat (constructor;
              [cbn [In]; intros H;
               repeat (destruct H as [H|H]; [discriminate H|]); exact H|]).
      constructor.
    + cbn [List.length]. lia.
    + intros x Hx. cbn [In] in *. tauto.
Defined.

(** X4. When a field is sent more than once, the first value counts
    ([form.get]): pairs that come after a form holding all six fields
    change nothing, whether they repeat a field or not. *)
Theorem first_value_of_a_field_counts form extra p :
  (forall k, In k field_names -> get form k <> None) ->
  predict_placement (form ++ extra) p = predict_placement form p
  /\ handle_request the_app (post (form ++ extra)) p
     = handle_request the_app (post form) p.
Proof.
  intros H.
  assert (E : predict_placement (form ++ extra) p = predict_placement form p).
  { apply predict_placement_lookups. intros k Hk. rewrite get_app.
    specialize (H k Hk). destruct (get form k); [reflexivity | contradiction]. }
  split; [exact E|]. rewrite !handle_post, E. reflexivity.
Qed.

Lemma first_value_of_a_field_counts_witness :
  predict_placement (scenario_form ++ [("carlength", "abc"); ("peakrpm", "1")])
    (serving_with first_feature)
  = predict_placement scenario_form (serving_with first_feature)
  /\ handle_request the_app
       (post (scenario_form ++ [("carlength", "abc"); ("peakrpm", "1")]))
       (serving_with first_feature)
     = handle_request the_app (post scenario_form) (serving_with first_feature).
Proof.
  apply first_value_of_a_field_counts.
  intros k Hk. cbn [In field_names] in Hk.
  destruct Hk as [<-|[<-|[<-|[<-|[<-|[<-|[]]]]]]]; discriminate.
Defined.

(** *** Blanks in a field *)

Module BlankFacts.

Import PyFloat.
Local Close Scope string_scope.

Lemma space_is_ascii c : Py_ISSPACE c = true -> (code c <=? 127)%N = true.
Proof. destruct c as [[] [] [] [] [] [] [] []]; vm_compute; intros H;
  try reflexivity; discriminate H. Qed.

Lemma transform_blanks_app w s :
  blanks w -> transform (w ++ s) = w ++ transform s.
Proof.
  induction 1 as [|c w Hc _ IH]; cbn [transform List.app]; [reflexivity|].
  rewrite (space_is_ascii c Hc), IH. reflexivity.
Qed.

Lemma lstrip_blanks_app w s : blanks w -> lstrip (w ++ s) = lstrip s.
Proof.
  induction 1 as [|c w Hc _ IH]; cbn [lstrip List.app]; [reflexivity|].
  rewrite Hc. exact IH.
Qed.

Lemma lstrip_blanks w : blanks w -> lstrip w = [].
Proof.
  intros H. rewrite <- (app_nil_r w). rewrite lstrip_blanks_app by exact H.
  reflexivity.
Qed.

Lemma rstrip_blanks w : blanks w -> rstrip w = [].
Proof.
  induction 1 as [|c w Hc _ IH]; cbn [rstrip]; [reflexivity|].
  rewrite IH, Hc. reflexivity.
Qed.

Lemma rstrip_app_blanks u w : blanks w -> rstrip (u ++ w) = rstrip u.
Proof.
  intros H. induction u as [|c u IH]; cbn [rstrip List.app].
  - apply rstrip_blanks, H.
  - rewrite IH. reflexivity.
Qed.

(** Blanks after [s] either follow what [transform] makes of [s] or are
    cut off with the rest. *)
Lemma transform_app_blanks s w :
  blanks w ->
  transform (s ++ w) = transform s \/ transform (s ++ w) = transform s ++ w.
Proof.
  intros H. induction s as [|c s IH]; cbn [transform List.app].
  - right. rewrite <- (app_nil_r w) at 1.
    rewrite transform_blanks_app by exact H. apply app_nil_r.
  - destruct (code c <=? 127)%N.
    + destruct IH as [-> | ->]; auto.
    + destruct (unicode_isspace_high c); [|auto].
      destruct IH as [-> | ->]; auto.
Qed.

Lemma lstrip_app_blanks t w :
  blanks w ->
  lstrip (t ++ w) = match lstrip t with
                    | [] => []
                    | u => u ++ w
                    end.
Proof.
  intros H. induction t as [|c t IH]; cbn [lstrip List.app].
  - apply lstrip_blanks, H.
  - destruct (Py_ISSPACE c); [exact IH | reflexivity].
Qed.

Lemma float_of_chars_padded w1 s w2 :
  blanks w1 -> blanks w2 ->
  float_of_chars (w1 ++ s ++ w2) = float_of_chars s.
Proof.
  intros H1 H2. unfold float_of_chars.
  rewrite (transform_blanks_app w1 (s ++ w2) H1).
  rewrite (lstrip_blanks_app w1 _ H1).
  destruct (transform_app_blanks s w2 H2) as [-> | ->]; [reflexivity|].
  rewrite (lstrip_app_blanks (transform s) w2 H2).
  destruct (lstrip (transform s)) as [|c u]; [reflexivity|].
  cbn [List.app]. rewrite (app_comm_cons u w2 c).
  rewrite (rstrip_app_blanks (c :: u) w2 H2).
  reflexivity.
Qed.

Lemma float_of_chars_blanks w : blanks w -> float_of_chars w = None.
Proof.
  intros H. unfold float_of_chars.
  rewrite <- (app_nil_r w). rewrite (transform_blanks_app w [] H).
  cbn [transform]. rewrite app_nil_r, (lstrip_blanks w H). reflexivity.
Qed.

Lemma list_ascii_of_string_app (a b : string) :
  list_ascii_of_string (a ++ b)%string
  = list_ascii_of_string a ++ list_ascii_of_string b.
Proof.
  induction a as [|c a IH]; cbn [list_ascii_of_string String.append List.app];
    [reflexivity|].
  rewrite IH. reflexivity.
Qed.

End BlankFacts.

(** X5. Blanks around the text of a field do not count: [float] gives
    the same number, or the same refusal, with and without them. *)
Theorem blanks_around_a_field_are_ignored (w1 s w2 : string) :
  blank w1 -> blank w2 ->
  float (Some (w1 ++ s ++ w2)%string) = float (Some s)
  /\ float_of_string (w1 ++ s ++ w2)%string = float_of_string s.
Proof.
  intros H1 H2.
  assert (E : float_of_string (w1 ++ s ++ w2)%string = float_of_string s).
  { unfold float_of_string.
    rewrite !BlankFacts.list_ascii_of_string_app.
    apply BlankFacts.float_of_chars_padded; assumption. }
  split; [|exact E]. unfold float. rewrite E. reflexivity.
Qed.

Lemma blanks_around_a_field_are_ignored_witness :
  float (Some (" " ++ "170" ++ "  ")%string) = float (Some "170")
  /\ float_of_string (" " ++ "170" ++ "  ")%string = float_of_string "170".
Proof.
  apply (blanks_around_a_field_are_ignored " " "170" "  ");
    repeat constructor.
Defined.

(** X6. A field that is there but empty, or holds blanks only, is not
    read as zero and is not taken for a missing field: [float] raises
    [ValueError] and the request ends in a 500. *)
Theorem blank_field_is_a_value_error form k s :
  get form k = Some s -> blank s ->
  float (get form k) = Raise ValueError
  /\ unreadable form k
  /\ exception_of form k = ValueError.
Proof.
  intros Hg Hb.
  assert (E : float_of_string s = None).
  { unfold float_of_string. apply BlankFacts.float_of_chars_blanks, Hb. }
  unfold float, unreadable, exception_of. rewrite Hg, E.
  split; [reflexivity|]. split; [right; exists s; auto | reflexivity].
Qed.

Lemma blank_field_is_a_value_error_witness :
  float (get blank_horsepower "horsepower") = Raise ValueError
  /\ unreadable blank_horsepower "horsepower"
  /\ exception_of blank_horsepower "horsepower" = ValueError.
Proof.
  apply (blank_field_is_a_value_error blank_horsepower "horsepower" "").
  - reflexivity.
  - constructor.
Defined.

(** ** Further properties of the routes *)

(** The rules of [the_app] that lead to a view. *)
Lemma lookup_the_app_view m p u f v :
  lookup the_app m p = Some (u, f) ->
  rule_endpoint u = to_view v ->
  (p = "/" /\ v = view_index /\ (m = GET \/ m = HEAD \/ m = OPTIONS))
  \/ (p = "/predict" /\ v = view_predict_placement
      /\ (m = POST \/ m = OPTIONS)).
Proof.
  unfold the_app. cbn [lookup].
  destruct (match_path (rule_path static_rule) p) as [g|].
  - destruct (allows static_rule m).
    + intros E Hv. inversion E; subst u. discriminate Hv.
    + cbn [route rule_path match_path].
      destruct (String.eqb_spec "/" p) as [<-|_].
      * destruct m; cbn; intros E Hv; inversion E; subst u;
          inversion Hv; subst v; auto 6; discriminate.
      * destruct (String.eqb_spec "/predict" p) as [<-|_]; [|discriminate].
        destruct m; cbn; intros E Hv; inversion E; subst u;
          inversion Hv; subst v; auto 6; discriminate.
  - cbn [route rule_path match_path].
    destruct (String.eqb_spec "/" p) as [<-|_].
    + destruct m; cbn; intros E Hv; inversion E; subst u;
        inversion Hv; subst v; auto 6; discriminate.
    + destruct (String.eqb_spec "/predict" p) as [<-|_]; [|discriminate].
      destruct m; cbn; intros E Hv; inversion E; subst u;
        inversion Hv; subst v; auto 6; discriminate.
Qed.

Lemma index_process p : snd (index p) = p.
Proof.
  unfold index, render_template.
  destruct (get (templates p) "index.html"); reflexivity.
Qed.

(** X7. [predict] runs for a POST to [/predict] and for nothing else: a
    request that leads to a call of the predictor, or to a line in the
    log, has that path and that method.  The root page, the files under
    [static/], [OPTIONS], a GET to [/predict], redirected and unknown
    paths never reach the model. *)
Theorem predict_runs_only_on_post_to_predict r p :
  predict_calls (snd (handle_request the_app r p)) <> predict_calls p
  \/ stdout (snd (handle_request the_app r p)) <> stdout p ->
  path r = "/predict" /\ method r = POST.
Proof.
  intros H.
  destruct (handle_request_cases the_app r p)
    as [E | (u & f & v & Hl & Hv & Hm & E)].
  - exfalso. rewrite E in H. destruct H as [H|H]; apply H; reflexivity.
  - destruct (lookup_the_app_view _ _ u f v Hl Hv)
      as [(_ & -> & _) | (Hp & _ & [Hpost | Hopt])].
    + exfalso. rewrite E, answer_of_process in H. cbn [run_view] in H.
      rewrite index_process in H. destruct H as [H|H]; apply H; reflexivity.
    + auto.
    + contradiction.
Qed.

Lemma predict_runs_only_on_post_to_predict_witness :
  path (post scenario_form) = "/predict" /\ method (post scenario_form) = POST.
Proof.
  apply (predict_runs_only_on_post_to_predict (post scenario_form)
           (serving_with first_feature)).
  left. vm_compute. discriminate.
Defined.

Lemma strip_prefix_app pre s : strip_prefix pre (pre ++ s)%string = Some s.
Proof.
  induction pre as [|c pre IH]; cbn [strip_prefix String.append];
    [reflexivity|].
  rewrite Ascii.eqb_refl. exact IH.
Qed.

(** Merging leaves the start of a file path as it is. *)
Lemma merge_slashes_static f :
  is_filename f = true ->
  merge_slashes ("/static/" ++ f)%string
  = ("/static/" ++ merge_slashes f)%string.
Proof.
  destruct f as [|c f]; [discriminate|]. cbn [is_filename].
  intros H. apply andb_prop in H as [H _]. apply negb_true_iff in H.
  cbn [String.append merge_slashes Ascii.eqb Bool.eqb andb].
  rewrite H. reflexivity.
Qed.

(** A path under [/static/] has no rule for a method other than GET,
    HEAD and OPTIONS. *)
Lemma lookup_the_app_static m g :
  m <> GET -> m <> HEAD -> m <> OPTIONS ->
  lookup the_app m ("/static/" ++ g)%string = None.
Proof.
  intros H1 H2 H3. unfold the_app. cbn [lookup].
  assert (Hs : allows static_rule m = false).
  { destruct m; try reflexivity; congruence. }
  rewrite Hs.
  cbn [route rule_path match_path String.append String.eqb Ascii.eqb Bool.eqb].
  destruct (match_path (rule_path static_rule) _); reflexivity.
Qed.

(** X8. What the routes refuse.  A method that the rule of a path does
    not take is answered 405: on [/predict] a method other than POST and
    OPTIONS, on [/] and on the files under [/static/] a method other than
    GET, HEAD and OPTIONS.  A path without doubled slashes that is not
    [/], not [/predict] and not under [/static/] is answered 404.  No view
    runs and the process is as it was. *)
Theorem requests_off_the_routes_are_refused r p :
  (path r = "/predict" -> method r <> POST -> method r <> OPTIONS ->
   handle_request the_app r p = (MethodNotAllowed405, p))
  /\ (path r = "/" -> method r <> GET -> method r <> HEAD ->
      method r <> OPTIONS ->
      handle_request the_app r p = (MethodNotAllowed405, p))
  /\ (forall f, path r = ("/static/" ++ f)%string -> is_filename f = true ->
      method r <> GET -> method r <> HEAD -> method r <> OPTIONS ->
      handle_request the_app r p = (MethodNotAllowed405, p))
  /\ (path r <> "/" -> path r <> "/predict" ->
      strip_prefix "/static/" (path r) = None ->
      merge_slashes (path r) = path r ->
      handle_request the_app r p = (NotFound404, p)).
Proof.
  split; [|split; [|split]].
  - intros E H1 H2. unfold handle_request. rewrite E.
    destruct (method r); try reflexivity; congruence.
  - intros E H1 H2 H3. unfold handle_request. rewrite E.
    destruct (method r); try reflexivity; congruence.
  - intros f E Hf H1 H2 H3. unfold handle_request. rewrite E.
    rewrite (merge_slashes_static f Hf).
    rewrite !(lookup_the_app_static (method r)) by assumption.
    cbv zeta.
    assert (Hk : path_known the_app ("/static/" ++ f)%string = true).
    { unfold path_known, the_app. cbn [existsb static_rule rule_path match_path].
      rewrite strip_prefix_app, Hf. reflexivity. }
    rewrite Hk. reflexivity.
  - intros H1 H2 H3 H4. unfold handle_request. rewrite H4.
    assert (Hl : lookup the_app (method r) (path r) = None).
    { unfold the_app. cbn [lookup static_rule route rule_path match_path].
      rewrite H3.
      destruct (String.eqb_spec "/" (path r)) as [E|_]; [congruence|].
      destruct (String.eqb_spec "/predict" (path r)) as [E|_]; [congruence|].
      reflexivity. }
    assert (Hk : path_known the_app (path r) = false).
    { unfold path_known, the_app.
      cbn [existsb static_rule route rule_path match_path].
      rewrite H3.
      destruct (String.eqb_spec "/" (path r)) as [E|_]; [congruence|].
      destruct (String.eqb_spec "/predict" (path r)) as [E|_]; [congruence|].
      reflexivity. }
    rewrite Hl. cbv zeta. rewrite Hk. reflexivity.
Qed.

Lemma requests_off_the_routes_are_refused_witness :
  handle_request the_app get_predict (serving_with first_feature)
  = (MethodNotAllowed405, serving_with first_feature)
  /\ handle_request the_app {| path := "/"; method := POST; form := scenario_form |}
       (serving_with first_feature)
     = (MethodNotAllowed405, serving_with first_feature)
  /\ handle_request the_app
       {| path := "/static/x.css"; method := POST; form := [] |}
       (serving_with first_feature)
     = (MethodNotAllowed405, serving_with first_feature)
  /\ handle_request the_app {| path := "/price"; method := GET; form := [] |}
       (serving_with first_feature)
     = (NotFound404, serving_with first_feature).
Proof.
  split; [|split; [|split]].
  - apply (proj1 (requests_off_the_routes_are_refused get_predict
                    (serving_with first_feature)));
      [reflexivity | discriminate | discriminate].
  - apply (proj1 (proj2 (requests_off_the_routes_are_refused
                           {| path := "/"; method := POST; form := scenario_form |}
                           (serving_with first_feature))));
      [reflexivity | discriminate ..].
  - apply (proj1 (proj2 (proj2 (requests_off_the_routes_are_refused
                           {| path := "/static/x.css"; method := POST; form := [] |}
                           (serving_with first_feature)))) "x.css");
      [reflexivity | reflexivity | discriminate ..].
  - apply (proj2 (proj2 (proj2 (requests_off_the_routes_are_refused
                           {| path := "/price"; method := GET; form := [] |}
                           (serving_with first_feature)))));
      [discriminate | discriminate | reflexivity | reflexivity].
Defined.

Lemma run_view_effects v r p :
  exists lines calls,
    extends p (snd (run_view v r p)) lines calls
    /\ (List.length lines <= 2)%nat
    /\ (List.length calls <= 1)%nat
    /\ Forall one_row_of_six calls.
Proof.
  destruct v; cbn [run_view].
  - rewrite index_process. exists [], [].
    split; [apply extends_refl|]. effects_done.
  - apply predict_placement_effects.
Qed.

(** X9. What one request can do to the process, whatever the routes, the
    request and its outcome: it prints at most two lines and calls
    [predict] at most once, on one row of six; what was printed and called
    before stays, and the model and the templates are not touched. *)
Theorem effects_of_a_request_are_bounded a r p :
  exists lines calls,
    extends p (snd (handle_request a r p)) lines calls
    /\ (List.length lines <= 2)%nat
    /\ (List.length calls <= 1)%nat
    /\ Forall one_row_of_six calls.
Proof.
  destruct (handle_request_cases a r p) as [-> | (u & f & v & _ & _ & _ & ->)].
  - exists [], []. split; [apply extends_refl|]. effects_done.
  - rewrite answer_of_process. apply run_view_effects.
Qed.

(** ** Further properties of the process *)

(** The calls a request adds are on one row of six. *)
Lemma handle_request_calls a r p :
  exists calls,
    predict_calls (snd (handle_request a r p)) = predict_calls p ++ calls
    /\ Forall one_row_of_six calls.
Proof.
  destruct (handle_request_cases a r p) as [-> | (u & f & v & _ & _ & _ & ->)].
  - exists []. split; [symmetry; apply app_nil_r | constructor].
  - rewrite answer_of_process.
    destruct (run_view_effects v r p)
      as (lines & calls & (_ & _ & _ & Ec) & _ & _ & Hc).
    eauto.
Qed.

Section Runs.

Variable env : environment.

(** A step either answers a request or leaves the log of answers, the
    log of calls and the output alone. *)
Lemma step_cases s ev :
  (served (step env s ev) = served s
   /\ predict_calls (proc (step env s ev)) = predict_calls (proc s)
   /\ stdout (proc (step env s ev)) = stdout (proc s))
  \/ (exists k a r,
        ph s = Serving k /\ app s = Some a /\ ev = Incoming r
        /\ step env s ev
           = {| ph := Serving k;
                proc := snd (handle_request a r (proc s));
                app := app s; loads := loads s;
                served := served s
                          ++ [(r, fst (handle_request a r (proc s)))] |}).
Proof.
  unfold step.
  destruct (ph s) as [[|c k]|k|] eqn:Hph; destruct ev; auto.
  - left. destruct (as_main env); [|destruct (app s)]; auto.
  - left. unfold exec.
    destruct c; [destruct (artifact env)| |destruct (app s)|];
      try (destruct (as_main env); [destruct (app s)|]); auto.
  - destruct (app s) as [a|] eqn:Ha; [|auto].
    right. exists k, a, r.
    destruct (handle_request a r (proc s)) as [resp p']. auto.
  - left. destruct (as_main env); auto.
Qed.

(** A property of the process that holds at the start and that every
    step keeps, under the invariant of the module, holds throughout. *)
Lemma run_induction (P : system -> Prop) disk :
  P (boot disk) ->
  (forall s ev, inv env s -> P s -> P (step env s ev)) ->
  forall evs, P (run env evs (boot disk)).
Proof.
  intros H0 Hstep evs.
  assert (G : forall s, inv env s -> P s ->
                        inv env (run env evs s) /\ P (run env evs s)).
  { induction evs as [|ev evs IH]; intros s Hi Hp; [auto|].
    apply IH; [apply inv_step, Hi | apply Hstep; assumption]. }
  apply G; [apply inv_boot | exact H0].
Qed.

Lemma calls_well_shaped_step s ev :
  calls_well_shaped s -> calls_well_shaped (step env s ev).
Proof.
  unfold calls_well_shaped. intros H.
  destruct (step_cases s ev) as [(_ & E & _) | (k & a & r & _ & _ & _ & E)].
  - rewrite E. exact H.
  - rewrite E. cbn [proc].
    destruct (handle_request_calls a r (proc s)) as (calls & Ec & Hc).
    rewrite Ec. apply Forall_app. auto.
Qed.

Lemma numeric_answer_the_app r p :
  numeric_answer (r, fst (handle_request the_app r p)).
Proof.
  unfold numeric_answer. cbn [fst snd]. intros Hp Hm body Hb.
  destruct r as [rp rm rf]. cbn [path method] in Hp, Hm. subst rp rm.
  change {| path := "/predict"; method := POST; form := rf |}
    with (post rf) in Hb.
  rewrite handle_post in Hb.
  destruct (predict_placement rf p) as [[b|e] p'] eqn:E;
    cbn [fst] in Hb; [|discriminate Hb].
  inversion Hb; subst body.
  destruct (predict_placement_body rf p b) as [x ->].
  - rewrite E. reflexivity.
  - apply float_of_string_str_float64.
Qed.

Lemma never_started_step s ev :
  artifact env = None -> never_started s -> never_started (step env s ev).
Proof.
  intros Ha (Hph & Hs & Happ & Hm & Hc & Ho).
  unfold step. destruct Hph as [Hph|Hph]; rewrite Hph.
  - destruct ev; try (unfold never_started; auto 10).
    unfold app_py, exec. rewrite Ha.
    unfold never_started. cbn [ph served app proc]. auto 10.
  - destruct ev; unfold never_started; auto 10.
Qed.

End Runs.

(** X10. When [model_1.pkl] cannot be unpickled the module stops at line
    6: no route is ever registered, no request is ever answered, the
    predictor is never called and nothing is printed, whatever comes
    after. *)
Theorem unloadable_artifact_never_serves env disk evs :
  artifact env = None ->
  let s := run env evs (boot disk) in
  served s = [] /\ app s = None /\ is_serving s = false
  /\ predict_calls (proc s) = [] /\ stdout (proc s) = [].
Proof.
  intros Ha s.
  assert (H : never_started s).
  { apply (run_induction env never_started).
    - unfold never_started. cbn. auto 10.
    - intros s0 ev _. apply never_started_step, Ha. }
  destruct H as (Hph & Hs & Happ & _ & Hc & Ho).
  repeat split; auto.
  unfold is_serving. destruct Hph as [-> | ->]; reflexivity.
Qed.

Lemma unloadable_artifact_never_serves_witness :
  let s := run {| artifact := None; as_main := true |}
             [Next; Next; Incoming (post scenario_form); Next; Next; Next;
              Incoming (post scenario_form)]
             (boot []) in
  served s = [] /\ app s = None /\ is_serving s = false
  /\ predict_calls (proc s) = [] /\ stdout (proc s) = [].
Proof.
  apply (unloadable_artifact_never_serves
           {| artifact := None; as_main := true |}).
  reflexivity.
Defined.

(** X11. A process that serves has three rules and no other: the one for
    the files under [/static/], which [Flask(__name__)] registers at line
    7, [/] for GET (line 9) and [/predict] for POST (line 13).  Rules are
    registered while the module runs and never after. *)
Theorem serving_process_has_the_three_rules env disk evs :
  let s := run env evs (boot disk) in
  is_serving s = true ->
  app s = Some the_app
  /\ forall r, app (step env s (Incoming r)) = Some the_app.
Proof.
  intros s Hs.
  assert (Hinv : inv env s) by apply inv_run, inv_boot.
  unfold is_serving in Hs. destruct (ph s) as [|k|] eqn:Hph; try discriminate Hs.
  destruct (inv_serving env s k Hinv Hph) as [Ha _].
  split; [exact Ha|]. intros r. unfold step. rewrite Hph, Ha.
  destruct (handle_request the_app r (proc s)). reflexivity.
Qed.

Lemma serving_process_has_the_three_rules_witness :
  let env := {| artifact := Some first_feature; as_main := true |} in
  let s := run env [Next; Next; Next; Next; Next; Incoming get_predict]
             (boot []) in
  app s = Some the_app
  /\ forall r, app (step env s (Incoming r)) = Some the_app.
Proof.
  apply (serving_process_has_the_three_rules
           {| artifact := Some first_feature; as_main := true |} []
           [Next; Next; Next; Next; Next; Incoming get_predict]).
  reflexivity.
Defined.

(** X12. In every run, whatever was requested, every call of [predict]
    was on an array of one row and six columns (line 24). *)
Theorem predict_sees_one_row_of_six env disk evs :
  Forall one_row_of_six (predict_calls (proc (run env evs (boot disk)))).
Proof.
  apply (run_induction env calls_well_shaped).
  - constructor.
  - intros s ev _. apply calls_well_shaped_step.
Qed.

(** X13. In every run, every 200 answer to a POST to [/predict] carries a
    text that [float] reads as a number.  Nothing is asked of the values
    the predictor returns (they may be NaN or infinite) nor of whether it
    returns at all; its result is, as everywhere in this model, an array
    of [float64] with one prediction for each row. *)
Theorem served_predictions_read_as_numbers env disk evs r body :
  In (r, Response200 body) (served (run env evs (boot disk))) ->
  path r = "/predict" -> method r = POST ->
  exists y, float_of_string body = Some y.
Proof.
  intros Hin Hp Hm.
  assert (H : Forall numeric_answer (served (run env evs (boot disk)))).
  { apply (run_induction env (fun s => Forall numeric_answer (served s))).
    - constructor.
    - intros s ev Hinv Hs.
      destruct (step_cases env s ev)
        as [(E & _) | (k & a & r0 & Hph & Ha & _ & E)].
      + rewrite E. exact Hs.
      + rewrite E. cbn [served]. apply Forall_app. split; [exact Hs|].
        constructor; [|constructor].
        destruct (inv_serving env s k Hinv Hph) as [Ha' _].
        assert (a = the_app) by congruence. subst a.
        apply numeric_answer_the_app. }
  rewrite Forall_forall in H.
  apply (H _ Hin Hp Hm body eq_refl).
Qed.

Lemma served_predictions_read_as_numbers_witness :
  exists y, float_of_string "170.0" = Some y.
Proof.
  apply (served_predictions_read_as_numbers
           {| artifact := Some first_feature; as_main := true |} []
           [Next; Next; Next; Next; Next; Incoming (post with_bad_carwidth);
            Incoming (post scenario_form)]
           (post scenario_form) "170.0").
  - vm_compute. right. left. reflexivity.
  - reflexivity.
  - reflexivity.
Defined.

(** X14. A process that serves answers every request and goes on
    serving, whatever the request and whatever the view does: an
    exception in the view costs that request a 500 and nothing more.  The
    answer is the one the rules of the application give, and the model
    stays bound. *)
Theorem serving_process_answers_every_request env disk evs r :
  let s := run env evs (boot disk) in
  let s' := step env s (Incoming r) in
  is_serving s = true ->
  ph s' = ph s
  /\ served s' = served s ++ [(r, fst (handle_request the_app r (proc s)))]
  /\ proc s' = snd (handle_request the_app r (proc s))
  /\ model (proc s') = model (proc s)
  /\ loads s' = loads s.
Proof.
  intros s s' Hs.
  assert (Hinv : inv env s) by apply inv_run, inv_boot.
  unfold is_serving in Hs. destruct (ph s) as [|k|] eqn:Hph; try discriminate Hs.
  destruct (inv_serving env s k Hinv Hph) as [Ha _].
  unfold s', step. rewrite Hph, Ha.
  pose proof (handle_request_model the_app r (proc s)) as Hm.
  destruct (handle_request the_app r (proc s)) as [resp p'].
  cbn [ph served proc loads fst snd] in *. auto.
Qed.

Lemma serving_process_answers_every_request_witness :
  let env := {| artifact := Some fussy; as_main := true |} in
  let s := run env [Next; Next; Next; Next; Next] (boot []) in
  let s' := step env s (Incoming (post odd_form)) in
  ph s' = ph s
  /\ served s'
     = served s ++ [(post odd_form,
                     fst (handle_request the_app (post odd_form) (proc s)))]
  /\ proc s' = snd (handle_request the_app (post odd_form) (proc s))
  /\ model (proc s') = model (proc s)
  /\ loads s' = loads s.
Proof.
  apply (serving_process_answers_every_request
           {| artifact := Some fussy; as_main := true |} []
           [Next; Next; Next; Next; Next] (post odd_form)).
  reflexivity.
Defined.

Section Startup.

Variable env : environment.
Variable m : predictor.
Hypothesis Hartifact : artifact env = Some m.
Hypothesis Hmain : as_main env = true.

(** With the artifact at hand, a statement of the module leads to the
    next one, and the last one to serving. *)
Lemma exec_progress c k s :
  inv env s -> ph s = Importing (c :: k) ->
  ph (exec env c k s) = match k with
                        | [] => Serving []
                        | _ => Importing k
                        end.
Proof.
  intros Hinv Hph. unfold inv in Hinv. rewrite Hph in Hinv.
  destruct Hinv as (n & Hk & Ha & _).
  destruct n as [|[|[|[|[|n]]]]]; cbn in Hk;
    try (inversion Hk; subst c k; clear Hk); unfold exec;
    rewrite ?Hartifact, ?Hmain, ?Ha; try reflexivity.
  destruct n; discriminate Hk.
Qed.

Lemma on_the_way_step s ev evs :
  inv env s -> is_stop ev = false ->
  on_the_way s (count_next (ev :: evs)) ->
  on_the_way (step env s ev) (count_next evs).
Proof.
  intros Hinv Hev [Hs | (k & Hph & Hne & Hlen)].
  - left. unfold is_serving in *. unfold step.
    destruct (ph s) as [|k|] eqn:Hph; try discriminate Hs.
    destruct ev; [rewrite Hph; reflexivity | | discriminate Hev].
    destruct (app s); [|rewrite Hph; reflexivity].
    destruct (handle_request _ _ _). reflexivity.
  - destruct k as [|c k]; [contradiction|].
    destruct ev; [| |discriminate Hev].
    + pose proof (exec_progress c k s Hinv Hph) as Hp.
      unfold step. rewrite Hph. cbn [count_next List.length] in Hlen.
      destruct k as [|c' k].
      * left. unfold is_serving. rewrite Hp. reflexivity.
      * right. exists (c' :: k). split; [exact Hp|].
        split; [discriminate | cbn [List.length] in *; lia].
    + right. exists (c :: k). unfold step. rewrite Hph.
      split; [exact Hph|]. split; [discriminate | exact Hlen].
Qed.

Lemma on_the_way_run evs : forall s,
  inv env s -> forallb (fun ev => negb (is_stop ev)) evs = true ->
  on_the_way s (count_next evs) ->
  is_serving (run env evs s) = true.
Proof.
  induction evs as [|ev evs IH]; intros s Hinv Hns Hw.
  - destruct Hw as [Hs | (k & Hph & Hne & Hlen)]; [exact Hs|].
    destruct k; [contradiction | cbn in Hlen; lia].
  - cbn [forallb] in Hns. apply andb_prop in Hns as [Hev Hns].
    apply negb_true_iff in Hev.
    cbn [run fold_left]. apply IH; [apply inv_step, Hinv | exact Hns |].
    apply on_the_way_step; assumption.
Qed.

End Startup.

(** X15. Start-up: with an artifact that can be unpickled, the module run
    as the main program comes to serve as soon as its five statements
    have run, with the artifact in [model] and the routes in place;
    requests that arrive earlier are not answered and do not hold it
    up. *)
Theorem module_comes_to_serve env m disk evs :
  artifact env = Some m ->
  as_main env = true ->
  forallb (fun ev => negb (is_stop ev)) evs = true ->
  (5 <= count_next evs)%nat ->
  let s := run env evs (boot disk) in
  is_serving s = true
  /\ model (proc s) = Some m
  /\ app s = Some the_app
  /\ loads s = 1%nat.
Proof.
  intros Ha Hmain Hns Hn s.
  assert (Hinv : inv env s) by apply inv_run, inv_boot.
  assert (Hs : is_serving s = true).
  { apply (on_the_way_run env m Ha Hmain evs); [apply inv_boot | exact Hns |].
    right. exists app_py. split; [reflexivity|].
    split; [discriminate | exact Hn]. }
  split; [exact Hs|].
  unfold is_serving in Hs. destruct (ph s) as [|k|] eqn:Hph; try discriminate Hs.
  destruct (inv_serving env s k Hinv Hph) as (Happ & Hl & m' & Hm1 & Hm2).
  split; [congruence | auto].
Qed.

Lemma module_comes_to_serve_witness :
  let s := run {| artifact := Some first_feature; as_main := true |}
             [Incoming (post scenario_form); Next; Next; Incoming get_predict;
              Next; Next; Next; Incoming (post scenario_form)]
             (boot []) in
  is_serving s = true
  /\ model (proc s) = Some first_feature
  /\ app s = Some the_app
  /\ loads s = 1%nat.
Proof.
  apply (module_comes_to_serve
           {| artifact := Some first_feature; as_main := true |} first_feature);
    [reflexivity | reflexivity | reflexivity | cbn [count_next]; lia].
Defined.

Lemma stopped_step env s ev :
  stopped env s ->
  stopped env (step env s ev) /\ served (step env s ev) = served s.
Proof.
  unfold stopped, step. intros [Hph | [Hph Hmain]]; rewrite Hph.
  - destruct ev; auto.
  - destruct ev; rewrite ?Hmain; cbn [with_phase ph served]; auto.
Qed.

Lemma stopped_run env evs : forall s,
  stopped env s -> served (run env evs s) = served s.
Proof.
  induction evs as [|ev evs IH]; intros s Hs; [reflexivity|].
  destruct (stopped_step env s ev Hs) as [H1 H2].
  cbn [run fold_left]. change (served (run env evs (step env s ev)) = served s).
  rewrite (IH _ H1). exact H2.
Qed.

(** X16. Once a serving process is told to stop, it answers nothing any
    more: [app.run] returns, the module has no statement left (lines 30
    to 31 are its last), and whatever is requested afterwards finds
    nobody. *)
Theorem stopped_process_never_answers_again env disk evs1 evs2 :
  let s := run env evs1 (boot disk) in
  is_serving s = true ->
  let s' := run env (evs1 ++ Stop :: evs2) (boot disk) in
  served s' = served s /\ is_serving s' = false.
Proof.
  intros s Hs s'.
  assert (Hinv : inv env s) by apply inv_run, inv_boot.
  assert (Hstop : stopped env (step env s Stop)
                  /\ served (step env s Stop) = served s).
  { unfold is_serving in Hs.
    destruct (ph s) as [|k|] eqn:Hph; try discriminate Hs.
    unfold inv in Hinv. rewrite Hph in Hinv. destruct Hinv as (n & H5 & Hn).
    destruct (at_statement_late env n k s H5 Hn) as (Hk & _).
    unfold stopped, step. rewrite Hph.
    destruct (as_main env) eqn:Hmain; cbn [with_phase ph served].
    - subst k. auto.
    - auto. }
  destruct Hstop as [H1 H2].
  assert (E : s' = run env evs2 (step env s Stop)).
  { unfold s', s. rewrite run_app. reflexivity. }
  rewrite E. split.
  - rewrite (stopped_run env evs2 _ H1). exact H2.
  - clear E. revert H1. generalize (step env s Stop). clear.
    induction evs2 as [|ev evs IH]; intros s0 H0.
    + unfold run, is_serving. cbn [fold_left].
      destruct H0 as [-> | [-> _]]; reflexivity.
    + unfold run. cbn [fold_left]. apply IH, stopped_step, H0.
Qed.

Lemma stopped_process_never_answers_again_witness :
  let env := {| artifact := Some first_feature; as_main := true |} in
  let s := run env [Next; Next; Next; Next; Next; Incoming (post scenario_form)]
             (boot []) in
  let s' := run env ([Next; Next; Next; Next; Next; Incoming (post scenario_form)]
                     ++ Stop :: [Incoming (post scenario_form); Next;
                                 Incoming get_predict])
              (boot []) in
  served s' = served s /\ is_serving s' = false.
Proof.
  apply (stopped_process_never_answers_again
           {| artifact := Some first_feature; as_main := true |} []).
  reflexivity.
Defined.
